(** * Portfolio script (js/main.js): a shallow embedding and its properties

    The script is one [DOMContentLoaded] listener that looks a few elements
    up, registers click, scroll, timer and intersection callbacks on them and
    returns.  The embedding follows that shape:

    - the page is a list of elements in document order, a node being its
      index in that list;
    - the [const] bindings and the registered listeners form an immutable
      [closure] built by [DOMContentLoaded];
    - the two [let] variables, the page and the pieces of browser state the
      script drives (animation-frame requests, timers, the targets of the
      intersection observer, the scroll offset) form the mutable [state];
    - every callback is a function from states to states that also returns
      the browser calls it made ([effect]s), an uncaught exception being one
      of them;
    - [step] dispatches one browser event to the callbacks registered for
      it, [run] a whole trace of events.

    A click is dispatched to the listeners of its target only: the page has
    no tree structure here, so bubbling to ancestors is outside the model. *)

From Stdlib Require Import ZArith QArith Lia.
From stdpp Require Import base list strings.
From Stdlib Require Import Ascii.

Local Open Scope string_scope.
Local Open Scope list_scope.

(** ** The page *)

Abbreviation node := nat.

Record element := Element {
  tagName : string;              (* lower-case local name *)
  id_attr : option string;       (* the id attribute, when present *)
  href_attr : option string;     (* the href attribute, when present *)
  classList : list string;
  textContent : string;
  backgroundColor : string;      (* style.backgroundColor *)
  offsetTop : Z;
  offsetHeight : Z }.

(** [DOMTokenList]: an ordered set of class names. *)
Module ClassList.

Definition contains (c : string) (l : list string) : bool :=
  existsb (String.eqb c) l.

Definition add (c : string) (l : list string) : list string :=
  if contains c l then l else l ++ [c].

Definition remove (c : string) (l : list string) : list string :=
  List.filter (fun x => negb (String.eqb c x)) l.

Definition toggle (c : string) (l : list string) : list string :=
  if contains c l then remove c l else add c l.

End ClassList.

Definition set_classList (f : list string -> list string) (e : element) : element :=
  Element (tagName e) (id_attr e) (href_attr e) (f (classList e))
          (textContent e) (backgroundColor e) (offsetTop e) (offsetHeight e).

Definition set_textContent (t : string) (e : element) : element :=
  Element (tagName e) (id_attr e) (href_attr e) (classList e)
          t (backgroundColor e) (offsetTop e) (offsetHeight e).

Definition set_backgroundColor (v : string) (e : element) : element :=
  Element (tagName e) (id_attr e) (href_attr e) (classList e)
          (textContent e) v (offsetTop e) (offsetHeight e).

(** The selectors the script writes as literals or as a template. *)
Inductive selector :=
  | ByClass (c : string)                  (* .c *)
  | AnchorHrefPrefix (p : string)         (* a[href^="p"] *)
  | SectionWithId                         (* section[id] *)
  | ClassHrefIs (c : string) (h : string) (* .c[href="h"] *).

Definition has_id (i : string) (e : element) : bool :=
  match id_attr e with Some j => String.eqb i j | None => false end.

Definition matches (sel : selector) (e : element) : bool :=
  match sel with
  | ByClass c => ClassList.contains c (classList e)
  | AnchorHrefPrefix p =>
      String.eqb (tagName e) "a" &&
      match href_attr e with Some h => String.prefix p h | None => false end
  | SectionWithId =>
      String.eqb (tagName e) "section" &&
      match id_attr e with Some _ => true | None => false end
  | ClassHrefIs c h =>
      ClassList.contains c (classList e) &&
      match href_attr e with Some h' => String.eqb h h' | None => false end
  end.

(** Nodes of [d] satisfying [p], in document order, counting from [i]. *)
Fixpoint nodes_from (p : element -> bool) (d : list element) (i : node) : list node :=
  match d with
  | [] => []
  | e :: d' => if p e then i :: nodes_from p d' (S i) else nodes_from p d' (S i)
  end.

Definition querySelectorAll (d : list element) (sel : selector) : list node :=
  nodes_from (matches sel) d 0.

Definition querySelector (d : list element) (sel : selector) : option node :=
  head (querySelectorAll d sel).

Definition getElementById (d : list element) (i : string) : option node :=
  head (nodes_from (has_id i) d 0).

Definition has_class (c : string) (n : node) (d : list element) : bool :=
  match d !! n with
  | Some e => ClassList.contains c (classList e)
  | None => false
  end.

Definition update_classes (f : list string -> list string) (n : node)
    (d : list element) : list element :=
  alter (set_classList f) n d.

(** What [document.querySelector] answers on a selector given as a string. *)
Inductive lookup_result :=
  | Found (n : node)
  | NotFound
  | InvalidSelector.              (* a SyntaxError is thrown *)

(** ** Numbers

    [Math.random] returns a binary64 number in [0, 1): a value
    [mantissa * 2 ^ exponent] with the mantissa below [2 ^ 53] and the
    exponent between -1074 and -53. *)
Record double := Double { mantissa : Z; exponent : Z }.

Definition unit_interval (r : double) : Prop :=
  (0 <= mantissa r < 2 ^ 53)%Z /\ (-1074 <= exponent r <= -53)%Z.

(** [p / 2 ^ k] rounded to nearest, ties to even. *)
Definition round_half_even (p k : Z) : Z :=
  let q := (p / 2 ^ k)%Z in
  let r := (p mod 2 ^ k)%Z in
  if (2 * r <? 2 ^ k)%Z then q
  else if (2 ^ k <? 2 * r)%Z then (q + 1)%Z
  else if Z.even q then q else (q + 1)%Z.

(** The binary64 number nearest to the non-negative value [p * 2 ^ e]
    (no overflow can occur for the products taken here). *)
Definition to_double (p e : Z) : double :=
  let e' := Z.max (Z.log2 p - 52 + e) (-1074) in
  if (e' <=? e)%Z then Double p e
  else Double (round_half_even p (e' - e)) e'.

(** [r * 70] in binary64 arithmetic. *)
Definition times70 (r : double) : double :=
  to_double (mantissa r * 70) (exponent r).

(** [Math.floor] of a non-negative binary64 number. *)
Definition floor (x : double) : Z :=
  if (0 <=? exponent x)%Z then (mantissa x * 2 ^ exponent x)%Z
  else (mantissa x / 2 ^ (- exponent x))%Z.

(** [Math.floor(Math.random() * 70) + 80]; the sum of two small integers
    is exact. *)
Definition delay_of (r : double) : Z := (floor (times70 r) + 80)%Z.

(** ** The script's bindings and state *)

Inductive click_listener :=
  | ToggleMenu          (* lines 24-28 *)
  | CloseMenu           (* lines 33-36 *)
  | SmoothScroll.       (* lines 48-63 *)

Inductive scroll_listener :=
  | ThrottledHighlight  (* lines 159-164 *)
  | HandleNavbarScroll. (* line 184 *)

(** The [const] bindings of the [DOMContentLoaded] callback and the
    listeners it registered, in registration order. *)
Record closure := Closure {
  navToggle : option node;
  navMenu : option node;
  navLinks : list node;
  smoothScrollLinks : list node;
  fadeElements : list node;
  fadeObserver : bool;            (* 'IntersectionObserver' in window *)
  typedNameElement : option node;
  sections : list node;
  navLinksForHighlight : list node;
  navbar : option node;
  clickListeners : list (node * click_listener);
  scrollListeners : list scroll_listener }.

Record state := State {
  dom : list element;
  scrollY : Q;                    (* window.scrollY *)
  charIndex : nat;
  scrollTimeout : option nat;     (* undefined, or a request handle *)
  rafCounter : nat;               (* last animation-frame handle given out *)
  rafPending : list nat;          (* pending requests, all for highlightNavLink *)
  timers : list Z;                (* pending setTimeout(typeCharacter, delay) *)
  observed : list node }.         (* targets of fadeObserver *)

Definition with_dom (f : list element -> list element) (s : state) : state :=
  State (f (dom s)) (scrollY s) (charIndex s) (scrollTimeout s)
        (rafCounter s) (rafPending s) (timers s) (observed s).

Definition with_scrollY (y : Q) (s : state) : state :=
  State (dom s) y (charIndex s) (scrollTimeout s)
        (rafCounter s) (rafPending s) (timers s) (observed s).

Definition with_charIndex (i : nat) (s : state) : state :=
  State (dom s) (scrollY s) i (scrollTimeout s)
        (rafCounter s) (rafPending s) (timers s) (observed s).

Definition with_raf (t : option nat) (k : nat) (p : list nat) (s : state) : state :=
  State (dom s) (scrollY s) (charIndex s) t k p (timers s) (observed s).

Definition with_timers (t : list Z) (s : state) : state :=
  State (dom s) (scrollY s) (charIndex s) (scrollTimeout s)
        (rafCounter s) (rafPending s) t (observed s).

Definition with_observed (o : list node) (s : state) : state :=
  State (dom s) (scrollY s) (charIndex s) (scrollTimeout s)
        (rafCounter s) (rafPending s) (timers s) o.

Inductive work := Highlight | NavbarBackground.

Inductive exn := TypeError | SyntaxError.

(** What a callback does besides changing the state: the browser calls it
    makes, the entry into one of the two scroll-driven functions, and the
    exception that ends it. *)
Inductive effect :=
  | PreventDefault (target : node)
  | ScrollIntoView (target : node)    (* behavior: smooth, block: start *)
  | Revealed (target : node)          (* the observer added 'visible' *)
  | SetTimeout (delay : Z)
  | RequestFrame (handle : nat)
  | CancelFrame (handle : nat)
  | Invoked (w : work)
  | Uncaught (e : exn).

Definition nameToType : string := "Noor Elahi Ali Shibly".

Definition charAt (i : nat) (s : string) : string :=
  match String.get i s with
  | Some a => String a EmptyString
  | None => EmptyString
  end.

(** A JavaScript value used as a condition: [undefined] and [0] are falsy. *)
Definition truthy (v : option nat) : bool :=
  match v with
  | Some (S _) => true
  | _ => false
  end.

(** ** The callbacks *)

Definition outcome : Type := state * list effect.

(** Runs [f] on the state of [o] and appends what it did. *)
Definition and_then (o : outcome) (f : state -> outcome) : outcome :=
  let r := f (fst o) in (fst r, snd o ++ snd r).

(** Lines 24-28: the click listener of the toggle button. *)
Definition toggleMenu (c : closure) (s : state) : outcome :=
  match navToggle c with
  | None => (s, [Uncaught TypeError])
  | Some t =>
      let s1 := with_dom (update_classes (ClassList.toggle "active") t) s in
      match navMenu c with
      | None => (s1, [Uncaught TypeError])
      | Some m => (with_dom (update_classes (ClassList.toggle "active") m) s1, [])
      end
  end.

(** Lines 33-36: the click listener of each nav link. *)
Definition closeMenu (c : closure) (s : state) : outcome :=
  match navToggle c with
  | None => (s, [Uncaught TypeError])
  | Some t =>
      let s1 := with_dom (update_classes (ClassList.remove "active") t) s in
      match navMenu c with
      | None => (s1, [Uncaught TypeError])
      | Some m => (with_dom (update_classes (ClassList.remove "active") m) s1, [])
      end
  end.

(** [getAttribute('href')] on node [n]: a string, or [null]. *)
Definition getAttribute_href (d : list element) (n : node) : option string :=
  match d !! n with
  | Some e => href_attr e
  | None => None
  end.

(** [v === s] for an attribute value [v], which is a string or [null]. *)
Definition is_string (v : option string) (s : string) : bool :=
  match v with
  | Some h => String.eqb h s
  | None => false
  end.

(** An attribute value used where a string is expected: [null] reads
    "null". *)
Definition to_string (v : option string) : string :=
  match v with
  | Some h => h
  | None => "null"
  end.

(** Lines 76-84: the observer's callback on one entry, then on a batch. *)
Definition revealEntry (s : state) (entry : node * bool) : outcome :=
  if snd entry
  then (with_observed (List.filter (fun n => negb (Nat.eqb n (fst entry))) (observed s))
          (with_dom (update_classes (ClassList.add "visible") (fst entry)) s),
        [Revealed (fst entry)])
  else (s, []).

Fixpoint fadeCallback (entries : list (node * bool)) (s : state) : outcome :=
  match entries with
  | [] => (s, [])
  | entry :: rest => and_then (revealEntry s entry) (fadeCallback rest)
  end.

(** Lines 111-120, on the number [r] that [Math.random] returns. *)
Definition typeCharacter (c : closure) (r : double) (s : state) : outcome :=
  match typedNameElement c with
  | Some t =>
      if (charIndex s <? String.length nameToType)%nat
      then
        let s1 := with_dom (alter (fun e =>
                     set_textContent (textContent e ++ charAt (charIndex s) nameToType) e) t) s in
        let s2 := with_charIndex (S (charIndex s)) s1 in
        let delay := delay_of r in
        (with_timers (timers s2 ++ [delay]) s2, [SetTimeout delay])
      else (s, [])
  | None => (s, [])
  end.

(** Line 142: [scrollPosition >= sectionTop && scrollPosition < sectionTop +
    sectionHeight]. *)
Definition within (scrollPosition : Q) (sectionTop sectionHeight : Z) : bool :=
  Qle_bool (inject_Z sectionTop) scrollPosition &&
  negb (Qle_bool (inject_Z (sectionTop + sectionHeight)) scrollPosition).

(** Lines 137-153: the body of the loop over the sections.  The template
    selector of line 149 is read as the selector it spells for an id without
    quote, backslash or line break: class 'nav-link' and href equal to '#'
    followed by the id. *)
Definition highlightSection (c : closure) (scrollPosition : Q) (s : state)
    (section : node) : state :=
  match dom s !! section with
  | None => s
  | Some e =>
      let sectionTop := offsetTop e in
      let sectionHeight := offsetHeight e in
      let sectionId := to_string (id_attr e) in
      if within scrollPosition sectionTop sectionHeight
      then
        let s1 := fold_left (fun s' link =>
                     with_dom (update_classes (ClassList.remove "active") link) s')
                   (navLinksForHighlight c) s in
        match querySelector (dom s1) (ClassHrefIs "nav-link" ("#" ++ sectionId)) with
        | Some activeLink =>
            with_dom (update_classes (ClassList.add "active") activeLink) s1
        | None => s1
        end
      else s
  end.

(** Lines 133-155. *)
Definition highlightNavLink (c : closure) (s : state) : outcome :=
  let scrollPosition := (scrollY s + 100)%Q in
  (fold_left (highlightSection c scrollPosition) (sections c) s, [Invoked Highlight]).

(** Lines 159-164: the first scroll listener. *)
Definition throttledHighlight (s : state) : outcome :=
  let cancelled :=
    if truthy (scrollTimeout s)
    then match scrollTimeout s with
         | Some h => (List.filter (fun k => negb (Nat.eqb k h)) (rafPending s), [CancelFrame h])
         | None => (rafPending s, [])
         end
    else (rafPending s, []) in
  let handle := S (rafCounter s) in
  (with_raf (Some handle) handle (fst cancelled ++ [handle]) s,
   snd cancelled ++ [RequestFrame handle]).

(** Lines 176-182. *)
Definition handleNavbarScroll (c : closure) (s : state) : outcome :=
  let colour :=
    if negb (Qle_bool (scrollY s) 50)
    then "rgba(13, 13, 13, 0.98)"
    else "rgba(13, 13, 13, 0.95)" in
  match navbar c with
  | Some b => (with_dom (alter (set_backgroundColor colour) b) s, [Invoked NavbarBackground])
  | None => (s, [Invoked NavbarBackground; Uncaught TypeError])
  end.

Section Script.

(** [document.querySelector] on the string an anchor's href holds: which
    element it names, if any, is the browser's selector engine's to say. *)
Variable resolve : list element -> string -> lookup_result.

(** Lines 48-63: the click listener of a same-page anchor, [this] being
    [link]. *)
Definition smoothScroll (link : node) (s : state) : outcome :=
  let href := getAttribute_href (dom s) link in
  if negb (is_string href "#")
  then
    (s, PreventDefault link ::
        match resolve (dom s) (to_string href) with
        | Found targetElement => [ScrollIntoView targetElement]
        | NotFound => []
        | InvalidSelector => [Uncaught SyntaxError]
        end)
  else (s, []).

Definition run_click_listener (c : closure) (target : node)
    (l : click_listener) (s : state) : outcome :=
  match l with
  | ToggleMenu => toggleMenu c s
  | CloseMenu => closeMenu c s
  | SmoothScroll => smoothScroll target s
  end.

Definition run_scroll_listener (c : closure) (l : scroll_listener)
    (s : state) : outcome :=
  match l with
  | ThrottledHighlight => throttledHighlight s
  | HandleNavbarScroll => handleNavbarScroll c s
  end.

(** Runs callbacks one after the other; an exception ends the callback
    that threw it, not the ones after it. *)
Fixpoint sequence (fs : list (state -> outcome)) (s : state) : outcome :=
  match fs with
  | [] => (s, [])
  | f :: rest => and_then (f s) (sequence rest)
  end.

Definition listeners_of (c : closure) (target : node) : list click_listener :=
  map snd (List.filter (fun r => Nat.eqb (fst r) target) (clickListeners c)).

(** Entries the browser hands to the observer's callback: targets under
    observation only, one entry for each. *)
Fixpoint deliverable (obs : list node) (entries : list (node * bool))
    : list (node * bool) :=
  match entries with
  | [] => []
  | entry :: rest =>
      if existsb (Nat.eqb (fst entry)) obs
      then entry :: deliverable (List.filter (fun n => negb (Nat.eqb n (fst entry))) obs) rest
      else deliverable obs rest
  end.

Inductive event :=
  | Click (target : node)
  | Scroll (y : Q)                 (* the window was scrolled to offset y *)
  | AnimationFrame
  | Timeout (r : double)           (* the oldest timer fires; Math.random gives r *)
  | Intersection (entries : list (node * bool)).

Definition step (c : closure) (ev : event) (s : state) : outcome :=
  match ev with
  | Click target =>
      sequence (map (run_click_listener c target) (listeners_of c target)) s
  | Scroll y =>
      sequence (map (run_scroll_listener c) (scrollListeners c)) (with_scrollY y s)
  | AnimationFrame =>
      sequence (map (fun _ => highlightNavLink c) (rafPending s))
               (with_raf (scrollTimeout s) (rafCounter s) [] s)
  | Timeout r =>
      match timers s with
      | [] => (s, [])
      | _ :: rest => typeCharacter c r (with_timers rest s)
      end
  | Intersection entries =>
      if fadeObserver c
      then fadeCallback (deliverable (observed s) entries) s
      else (s, [])
  end.

Fixpoint run (c : closure) (trace : list event) (s : state) : outcome :=
  match trace with
  | [] => (s, [])
  | ev :: rest => and_then (step c ev s) (run c rest)
  end.

End Script.

(** ** Page load *)

(** Lines 13-186: the [DOMContentLoaded] callback on page [d], the window
    being at scroll offset [y]; [io] tells whether the browser has
    [IntersectionObserver].  Returns the bindings and listeners it leaves
    behind, the state it leaves and what it did. *)
Definition onDOMContentLoaded (io : bool) (y : Q) (d : list element)
    : closure * outcome :=
  (* 1. mobile navigation toggle *)
  let navToggle := getElementById d "nav-toggle" in
  let navMenu := getElementById d "nav-menu" in
  let guarded := match navToggle, navMenu with Some _, Some _ => true | _, _ => false end in
  let navLinks := if guarded then querySelectorAll d (ByClass "nav-link") else [] in
  let menuListeners :=
    match navToggle with
    | Some t => if guarded then (t, ToggleMenu) :: map (fun l => (l, CloseMenu)) navLinks else []
    | None => []
    end in
  (* 2. smooth scroll *)
  let smoothScrollLinks := querySelectorAll d (AnchorHrefPrefix "#") in
  let scrollClickListeners := map (fun l => (l, SmoothScroll)) smoothScrollLinks in
  (* 3. fade-in *)
  let fadeElements := querySelectorAll d (ByClass "fade-in") in
  let d1 :=
    if io then d
    else fold_left (fun d' el => update_classes (ClassList.add "visible") el d') fadeElements d in
  let observed := if io then fadeElements else [] in
  (* 4. typing effect *)
  let typedNameElement := getElementById d1 "typed-name" in
  (* 5. active link highlighting *)
  let sections := querySelectorAll d1 SectionWithId in
  let navLinksForHighlight := querySelectorAll d1 (ByClass "nav-link") in
  let s1 := State d1 y 0 None 0 [] [500%Z] observed in
  let bindings := fun navbar listeners =>
    Closure navToggle navMenu navLinks smoothScrollLinks fadeElements io
            typedNameElement sections navLinksForHighlight navbar
            (menuListeners ++ scrollClickListeners) listeners in
  let o := highlightNavLink (bindings None [ThrottledHighlight]) s1 in
  (* 6. navbar background *)
  let navbar := getElementById (dom (fst o)) "navbar" in
  (bindings navbar [ThrottledHighlight; HandleNavbarScroll],
   (fst o, SetTimeout 500 :: snd o)).

(** The bindings and listeners page load leaves, the state it leaves, and
    the state a trace of events then leads to. *)
Definition script_of (io : bool) (y : Q) (d : list element) : closure :=
  fst (onDOMContentLoaded io y d).

Definition loaded (io : bool) (y : Q) (d : list element) : state :=
  fst (snd (onDOMContentLoaded io y d)).

Definition after (resolve : list element -> string -> lookup_result)
    (io : bool) (y : Q) (d : list element) (trace : list event) : state :=
  fst (run resolve (script_of io y d) trace (loaded io y d)).

(** ** What a callback may leave changed *)

(** [e'] is [e] up to membership of the classes 'active' and 'visible',
    its text and its inline background colour; 'visible' is not taken away. *)
Definition preserved (e e' : element) : Prop :=
  tagName e' = tagName e /\ id_attr e' = id_attr e /\ href_attr e' = href_attr e /\
  offsetTop e' = offsetTop e /\ offsetHeight e' = offsetHeight e /\
  (forall c, c <> "active" -> c <> "visible" ->
     ClassList.contains c (classList e') = ClassList.contains c (classList e)) /\
  (ClassList.contains "visible" (classList e) = true ->
   ClassList.contains "visible" (classList e') = true).

(** [e'] is [e] up to membership of the classes 'active' and 'visible'. *)
Definition restyled_element (e e' : element) : Prop :=
  preserved e e' /\ textContent e' = textContent e /\
  backgroundColor e' = backgroundColor e.

Definition restyled (d d' : list element) : Prop := Forall2 restyled_element d d'.

(** Page [d'] has the nodes of [d], each preserved; text changed on the
    typed-name element only and background colour on the navbar only. *)
Definition frame (c : closure) (d d' : list element) : Prop :=
  Forall2 preserved d d' /\
  forall n e e', d !! n = Some e -> d' !! n = Some e' ->
    (typedNameElement c <> Some n -> textContent e' = textContent e) /\
    (navbar c <> Some n -> backgroundColor e' = backgroundColor e).

(** [s'] is [s] up to the page. *)
Definition dom_only (s s' : state) : Prop :=
  s' = State (dom s') (scrollY s) (charIndex s) (scrollTimeout s)
             (rafCounter s) (rafPending s) (timers s) (observed s).

(** The variables of the typing effect, of the scroll throttle. *)
Definition typing_vars (s : state) : nat * list Z := (charIndex s, timers s).

Definition raf_vars (s : state) : option nat * nat * list nat :=
  (scrollTimeout s, rafCounter s, rafPending s).

(** The effects a callback run for event [ev] can have. *)
Definition emits (ev : event) (e : effect) : Prop :=
  match ev, e with
  | Click _, (PreventDefault _ | ScrollIntoView _ | Uncaught _) => True
  | Scroll _, (RequestFrame _ | CancelFrame _ | Invoked NavbarBackground
              | Uncaught TypeError) => True
  | AnimationFrame, Invoked Highlight => True
  | Timeout _, SetTimeout _ => True
  | Intersection _, Revealed _ => True
  | _, _ => False
  end.

(** How many times [effs] enters the scroll-driven function [w]. *)
Definition invocations (w : work) (effs : list effect) : nat :=
  length (List.filter (fun e =>
    match e, w with
    | Invoked Highlight, Highlight | Invoked NavbarBackground, NavbarBackground => true
    | _, _ => false
    end) effs).

(** How many times the observer added 'visible' to [n] in [effs]. *)
Definition reveals (n : node) (effs : list effect) : nat :=
  length (List.filter (fun e =>
    match e with Revealed m => Nat.eqb m n | _ => false end) effs).

(** A class-list operation that touches 'active' or 'visible' only, and
    does not take 'visible' away. *)
Definition class_only (f : list string -> list string) : Prop :=
  forall l,
    (forall c, c <> "active" -> c <> "visible" ->
       ClassList.contains c (f l) = ClassList.contains c l) /\
    (ClassList.contains "visible" l = true -> ClassList.contains "visible" (f l) = true).

(** A selector that tests neither 'active' nor 'visible'. *)
Definition stable (sel : selector) : Prop :=
  match sel with
  | ByClass c | ClassHrefIs c _ => c <> "active" /\ c <> "visible"
  | _ => True
  end.

(** ** The specification's sentences, as they are worded *)

(** "The only mutable state is a character-index counter and CSS class
    membership (active, visible)": from [s] to [s'] nothing else changed,
    neither on a node nor in the script's other variable. *)
Definition only_counter_and_classes (s s' : state) : Prop :=
  restyled (dom s) (dom s') /\ scrollTimeout s' = scrollTimeout s.

(** The nav links that carry 'active'. *)
Definition active_links (c : closure) (s : state) : list node :=
  List.filter (fun link => has_class "active" link (dom s)) (navLinksForHighlight c).

(** "Scrolling past a threshold marks exactly one nav link active." *)
Definition exactly_one_active (c : closure) (s : state) : Prop :=
  length (active_links c s) = 1.

(** Whether section [sec] of page [d] contains the offset position. *)
Definition inside (scrollPosition : Q) (d : list element) (sec : node) : bool :=
  match d !! sec with
  | Some e => within scrollPosition (offsetTop e) (offsetHeight e)
  | None => false
  end.

(** The last section, in document order, that contains the offset scroll
    position of state [s]. *)
Definition current_section (c : closure) (s : state) : option node :=
  last (List.filter (inside (scrollY s + 100) (dom s)) (sections c)).

(** The nav link that the script looks up for section [sec]: the first
    element of class 'nav-link' whose href is '#' followed by the section's
    id. *)
Definition link_of (d : list element) (sec : node) : option node :=
  match d !! sec with
  | Some e => querySelector d (ClassHrefIs "nav-link" ("#" ++ to_string (id_attr e)))
  | None => None
  end.

(** Animation frames and scroll events in a trace. *)
Definition frames (trace : list event) : nat :=
  length (List.filter (fun ev => match ev with AnimationFrame => true | _ => false end) trace).

Definition scrolls (trace : list event) : nat :=
  length (List.filter (fun ev => match ev with Scroll _ => true | _ => false end) trace).

(** "Scroll-driven work is throttled to at most once per animation frame":
    from state [s] on, the function [w] is entered no more often than
    frames are rendered, however many scroll events arrive. *)
Definition once_per_frame (resolve : list element -> string -> lookup_result)
    (c : closure) (s : state) (w : work) : Prop :=
  forall trace, invocations w (snd (run resolve c trace s)) <= frames trace.

(** Page [d'] has the texts of page [d]. *)
Definition same_text (d d' : list element) : Prop :=
  Forall2 (fun e e' => textContent e' = textContent e) d d'.

(** Timer events in a trace, i.e. times [typeCharacter] is due. *)
Definition timeouts (trace : list event) : nat :=
  length (List.filter (fun ev => match ev with Timeout _ => true | _ => false end) trace).

Definition text_of (n : node) (d : list element) : string :=
  match d !! n with
  | Some e => textContent e
  | None => ""
  end.

(** The typing effect after [k] timer events on a typed-name element [t]
    that held [init] at page load: [k] characters typed and a timer pending,
    or the whole name typed and, from the timer event after that on, no
    timer left. *)
Definition typed (init : string) (t : node) (k : nat) (s : state) : Prop :=
  let n := String.length nameToType in
  charIndex s = Nat.min k n /\
  text_of t (dom s) = (init ++ String.substring 0 (Nat.min k n) nameToType)%string /\
  length (timers s) = if (k <=? n)%nat then 1 else 0.

(** At most one animation-frame request is pending, the one whose handle
    [scrollTimeout] holds. *)
Definition raf_ok (s : state) : Prop :=
  rafPending s = [] \/
  exists h, scrollTimeout s = Some (S h) /\ rafPending s = [S h].

(** ** Example pages *)

(** A selector engine that understands ["#id"] and nothing else. *)
Definition id_engine (d : list element) (sel : string) : lookup_result :=
  match sel with
  | String ("#"%char) i =>
      match i with
      | EmptyString => InvalidSelector
      | _ => match getElementById d i with Some n => Found n | None => NotFound end
      end
  | _ => InvalidSelector
  end.

Definition tag (name : string) (id : option string) (href : option string)
    (classes : list string) (top height : Z) : element :=
  Element name id href classes "" "" top height.

(** A page with everything the script looks for. *)
Definition portfolio : list element :=
  [ tag "nav" (Some "navbar") None [] 0 60;
    tag "button" (Some "nav-toggle") None [] 0 40;
    tag "ul" (Some "nav-menu") None [] 0 60;
    tag "a" None (Some "#home") ["nav-link"] 0 20;
    tag "a" None (Some "#about") ["nav-link"] 0 20;
    tag "span" (Some "typed-name") None [] 200 40;
    tag "section" (Some "home") None ["fade-in"] 0 600;
    tag "section" (Some "about") None ["fade-in"] 600 800;
    tag "a" None (Some "#") [] 1400 20 ].

(** The same page without its navbar element. *)
Definition no_navbar : list element := tail portfolio.

(** A page whose second section has no link in the navigation. *)
Definition unlinked_section : list element :=
  [ tag "a" None (Some "#home") ["nav-link"; "active"] 0 20;
    tag "section" (Some "home") None [] 0 600;
    tag "section" (Some "contact") None [] 600 800 ].

(** A page whose typed-name element already holds some text. *)
Definition prefilled : list element :=
  [ Element "span" (Some "typed-name") None [] "> " "" 0 40 ].

(** A page whose toggle button is one of the nav links. *)
Definition toggle_is_link : list element :=
  [ tag "a" (Some "nav-toggle") (Some "#") ["nav-link"] 0 40;
    tag "ul" (Some "nav-menu") None [] 0 60 ].

(** ** Further vocabulary *)

(** The inline background colour [handleNavbarScroll] picks at offset [y]. *)
Definition navbar_colour (y : Q) : string :=
  if negb (Qle_bool y 50) then "rgba(13, 13, 13, 0.98)" else "rgba(13, 13, 13, 0.95)".

Definition background_of (n : node) (d : list element) : string :=
  match d !! n with
  | Some e => backgroundColor e
  | None => ""
  end.

(** Page [d'] has the inline background colours of page [d]. *)
Definition same_background (d d' : list element) : Prop :=
  Forall2 (fun e e' => backgroundColor e' = backgroundColor e) d d'.

(** Page [d'] has the class lists of page [d]. *)
Definition same_classes (d d' : list element) : Prop :=
  Forall2 (fun e e' => classList e' = classList e) d d'.

(** Whether a scroll event came after the last animation frame of the
    trace, [p] telling whether one was awaited before the trace. *)
Definition awaiting (p : bool) (trace : list event) : bool :=
  fold_left (fun p ev =>
    match ev with
    | Scroll _ => true
    | AnimationFrame => false
    | _ => p
    end) trace p.

(** The offset of the last scroll event of the trace, [y] being the offset
    before it. *)
Definition last_offset (y : Q) (trace : list event) : Q :=
  fold_left (fun y ev => match ev with Scroll y' => y' | _ => y end) trace y.

(** Timers set in [effs]. *)
Definition timers_set (effs : list effect) : nat :=
  length (List.filter (fun e => match e with SetTimeout _ => true | _ => false end) effs).

(** The entries of a batch that report target [n] intersecting. *)
Definition reported (n : node) (entries : list (node * bool)) : bool :=
  existsb (fun entry => Nat.eqb (fst entry) n && snd entry) entries.

(** A page without the menu element. *)
Definition no_menu : list element :=
  [ tag "button" (Some "nav-toggle") None ["active"] 0 40;
    tag "a" None (Some "#home") ["nav-link"] 0 20;
    tag "section" (Some "home") None ["fade-in"] 0 600 ].

(** A page without the typed-name element. *)
Definition no_typed_name : list element :=
  [ tag "section" (Some "home") None [] 0 600 ].

(** Page [d'] has the nodes of [d], with the same members in every class
    other than [cl]. *)
Definition differs_only_on (cl : string) (d d' : list element) : Prop :=
  Forall2 (fun e e' => forall c, c <> cl ->
             ClassList.contains c (classList e') = ClassList.contains c (classList e)) d d'.

(** The class an event's callbacks may add or remove, if any. *)
Definition class_of_event (ev : event) : option string :=
  match ev with
  | Click _ | AnimationFrame => Some "active"
  | Intersection _ => Some "visible"
  | Scroll _ | Timeout _ => None
  end.

(** The scroll throttle after [k] scroll events, [p] telling whether one of
    them came after the last animation frame: [k] handles were given out,
    [scrollTimeout] holds the last, and the request pending, if any, is that
    one. *)
Definition raf_at (k : nat) (p : bool) (s : state) : Prop :=
  rafCounter s = k /\
  scrollTimeout s = match k with 0 => None | S _ => Some k end /\
  rafPending s = (if p then [k] else []) /\
  (p = true -> 0 < k).

(** * Properties *)

(** ** The typing delay *)

Section Delay.

Local Open Scope Z_scope.

(** Rounding a value that lies at least [70 / 2 ^ k] below the integer
    [70 * a] cannot reach that integer when [2 ^ k < 140]. *)
Lemma round_below_70 p k a :
  1 <= k <= 7 -> 0 < a -> 0 <= p <= 70 * (2 ^ k * a) - 70 ->
  0 <= round_half_even p k < 70 * a.
Proof.
  intros Hk Ha Hp. unfold round_half_even.
  assert (Hcases : k = 1 \/ k = 2 \/ k = 3 \/ k = 4 \/ k = 5 \/ k = 6 \/ k = 7) by lia.
  destruct Hcases as [-> | [-> | [-> | [-> | [-> | [-> | ->]]]]]];
    cbn [Z.pow Z.pow_pos Pos.iter Z.mul Pos.mul] in *;
    repeat match goal with
           | |- context [if ?b then _ else _] => destruct b eqn:?
           end;
    rewrite ?Z.ltb_lt, ?Z.ltb_ge in *;
    Z.div_mod_to_equations; lia.
Qed.

Lemma floor_times70 r :
  unit_interval r -> 0 <= floor (times70 r) <= 69.
Proof.
  destruct r as [m e]. unfold unit_interval, times70, to_double. cbn [mantissa exponent].
  intros [[Hm0 Hm] [He0 He]].
  assert (Hpow : 2 ^ 53 <= 2 ^ (- e)) by (apply Z.pow_le_mono_r; lia).
  destruct (Z.leb_spec (Z.max (Z.log2 (m * 70) - 52 + e) (-1074)) e) as [Hexact | Hround].
  - (* the product is a binary64 number already *)
    unfold floor. cbn [mantissa exponent].
    destruct (Z.leb_spec 0 e) as [? | _]; [lia |].
    split.
    + apply Z.div_pos; lia.
    + enough (m * 70 / 2 ^ (- e) < 70) by lia.
      apply Z.div_lt_upper_bound; lia.
  - (* the product needs more than 53 bits *)
    assert (Hmax : Z.max (Z.log2 (m * 70) - 52 + e) (-1074) = Z.log2 (m * 70) - 52 + e) by lia.
    rewrite Hmax in *.
    set (k := Z.log2 (m * 70) - 52) in *.
    replace (Z.log2 (m * 70) - 52 + e) with (k + e) in * by lia.
    replace (k + e - e) with k by lia.
    assert (Hk1 : 1 <= k) by lia.
    assert (Hpos : 0 < m * 70).
    { destruct (Z.eq_dec m 0) as [-> | ?]; [| lia].
      unfold k in Hk1. change (Z.log2 (0 * 70)) with 0 in Hk1. lia. }
    assert (Hk7 : k <= 7).
    { assert (Z.log2 (m * 70) < 60); [| lia].
      apply Z.log2_lt_pow2; [lia |].
      change (2 ^ 60) with (128 * 2 ^ 53). lia. }
    unfold floor. cbn [mantissa exponent].
    destruct (Z.leb_spec 0 (k + e)) as [? | _]; [lia |].
    set (a := 2 ^ (- (k + e))).
    assert (Ha : 0 < a) by (apply Z.pow_pos_nonneg; lia).
    assert (Hsplit : 2 ^ (- e) = 2 ^ k * a).
    { unfold a. rewrite <- Z.pow_add_r by lia. f_equal. lia. }
    pose proof (round_below_70 (m * 70) k a ltac:(lia) Ha ltac:(lia)) as [Hq0 Hq].
    split.
    + apply Z.div_pos; lia.
    + enough (round_half_even (m * 70) k / a < 70) by lia.
      apply Z.div_lt_upper_bound; lia.
Qed.

End Delay.

(** ** Class lists *)

Module ClassListFacts.
Import ClassList.

Lemma contains_app c l l' : contains c (l ++ l') = contains c l || contains c l'.
Proof. apply existsb_app. Qed.

Lemma contains_add c c' l :
  contains c' (add c l) = String.eqb c' c || contains c' l.
Proof.
  unfold add. destruct (contains c l) eqn:Hc.
  - destruct (String.eqb_spec c' c) as [-> | _]; [by rewrite Hc | done].
  - rewrite contains_app. cbn. rewrite orb_false_r. apply orb_comm.
Qed.

Lemma contains_remove c c' l :
  contains c' (remove c l) = negb (String.eqb c' c) && contains c' l.
Proof.
  unfold remove, contains. induction l as [| x l IH]; cbn.
  - by rewrite andb_false_r.
  - destruct (String.eqb_spec c x) as [-> | Hx]; cbn.
    + rewrite IH. destruct (String.eqb_spec c' x); cbn; done.
    + rewrite IH. destruct (String.eqb_spec c' x) as [-> | ?]; cbn; [| done].
      destruct (String.eqb_spec x c); [congruence | done].
Qed.

Lemma contains_toggle c c' l :
  contains c' (toggle c l) =
  if String.eqb c' c then negb (contains c l) else contains c' l.
Proof.
  unfold toggle. destruct (contains c l) eqn:Hc.
  - rewrite contains_remove.
    destruct (String.eqb_spec c' c) as [-> | _]; cbn; done.
  - rewrite contains_add.
    destruct (String.eqb_spec c' c) as [-> | _]; cbn; done.
Qed.

End ClassListFacts.

(** ** Lookups *)

Lemma nodes_from_ext p q d d' i :
  Forall2 (fun e e' => p e = q e') d d' -> nodes_from p d i = nodes_from q d' i.
Proof.
  intros H. revert i. induction H as [| e e' d d' Hp _ IH]; intros i; cbn; [done |].
  rewrite Hp, (IH (S i)). done.
Qed.

Lemma elem_of_nodes_from p d i n :
  n ∈ nodes_from p d i <-> exists e, i <= n /\ d !! (n - i) = Some e /\ p e = true.
Proof.
  revert i. induction d as [| x d IH]; intros i; cbn.
  - split; [by intros ?%elem_of_nil | by intros (? & _ & ? & _)].
  - assert (Htail : n ∈ nodes_from p d (S i) <->
                    exists e, S i <= n /\ (x :: d) !! (n - i) = Some e /\ p e = true).
    { rewrite IH. split; intros (e & Hle & Hl & Hp); exists e; (split; [lia |]);
        (split; [| done]).
      - replace (n - i) with (S (n - S i)) by lia. done.
      - replace (n - i) with (S (n - S i)) in Hl by lia. done. }
    destruct (p x) eqn:Hx.
    + rewrite elem_of_cons, Htail. split.
      * intros [-> | (e & ? & ? & ?)]; [| exists e; split; [lia | done]].
        exists x. rewrite Nat.sub_diag. done.
      * intros (e & Hle & Hl & Hp).
        destruct (decide (n = i)) as [-> | ?]; [by left |].
        right. exists e. split; [lia | done].
    + rewrite Htail. split; intros (e & Hle & Hl & Hp); exists e.
      * split; [lia | done].
      * destruct (decide (n = i)) as [-> | ?]; [| split; [lia | done]].
        rewrite Nat.sub_diag in Hl. cbn in Hl. congruence.
Qed.

Lemma nodes_from_NoDup p d i : NoDup (nodes_from p d i).
Proof.
  revert i. induction d as [| x d IH]; intros i; cbn; [constructor |].
  destruct (p x); [| done].
  constructor; [| done].
  rewrite elem_of_nodes_from. intros (? & ? & _). lia.
Qed.

Lemma elem_of_querySelectorAll d sel n :
  n ∈ querySelectorAll d sel <-> exists e, d !! n = Some e /\ matches sel e = true.
Proof.
  unfold querySelectorAll. rewrite elem_of_nodes_from, Nat.sub_0_r.
  split; [intros (e & _ & ?) | intros (e & ?)]; exists e; [done | split; [lia | done]].
Qed.

Lemma querySelectorAll_NoDup d sel : NoDup (querySelectorAll d sel).
Proof. apply nodes_from_NoDup. Qed.

Lemma head_elem_of {A} (l : list A) x : head l = Some x -> x ∈ l.
Proof. destruct l; cbn; [done |]. intros [= ->]. left. Qed.

Lemma querySelector_Some d sel n :
  querySelector d sel = Some n -> n ∈ querySelectorAll d sel.
Proof. apply head_elem_of. Qed.

Lemma getElementById_Some d i n :
  getElementById d i = Some n -> exists e, d !! n = Some e /\ id_attr e = Some i.
Proof.
  intros H%head_elem_of. apply elem_of_nodes_from in H as (e & _ & Hl & Hid).
  rewrite Nat.sub_0_r in Hl. exists e. split; [done |].
  unfold has_id in Hid. destruct (id_attr e) as [j |]; [| done].
  apply String.eqb_eq in Hid. by subst.
Qed.

(** Two different ids name two different elements. *)
Lemma getElementById_distinct d i j n m :
  i <> j -> getElementById d i = Some n -> getElementById d j = Some m -> n <> m.
Proof.
  intros Hij (e & He & Hi)%getElementById_Some (e' & He' & Hj)%getElementById_Some ->.
  congruence.
Qed.

(** ** Frames *)

(** Reduces the fields of an updated element. *)
Ltac fields :=
  unfold set_classList, set_textContent, set_backgroundColor;
  cbn [tagName id_attr href_attr classList textContent backgroundColor
       offsetTop offsetHeight].

Lemma preserved_refl e : preserved e e.
Proof. repeat split; done. Qed.

Lemma preserved_trans e1 e2 e3 : preserved e1 e2 -> preserved e2 e3 -> preserved e1 e3.
Proof.
  intros (? & ? & ? & ? & ? & H12 & V12) (? & ? & ? & ? & ? & H23 & V23).
  repeat split; try congruence; [| tauto].
  intros c ? ?. rewrite H23, H12; done.
Qed.

Lemma restyled_element_refl e : restyled_element e e.
Proof. split; [apply preserved_refl | done]. Qed.

Lemma restyled_element_trans e1 e2 e3 :
  restyled_element e1 e2 -> restyled_element e2 e3 -> restyled_element e1 e3.
Proof.
  intros (? & ? & ?) (? & ? & ?).
  split; [by eapply preserved_trans | split; congruence].
Qed.

Lemma restyled_refl d : restyled d d.
Proof. apply Forall_Forall2_diag, Forall_forall. intros. apply restyled_element_refl. Qed.

Lemma restyled_trans d1 d2 d3 : restyled d1 d2 -> restyled d2 d3 -> restyled d1 d3.
Proof. apply Forall2_trans, restyled_element_trans. Qed.

Lemma restyled_preserved d d' : restyled d d' -> Forall2 preserved d d'.
Proof. intros H. eapply Forall2_impl; [done |]. by intros ? ? [? _]. Qed.

Lemma restyled_frame c d d' : restyled d d' -> frame c d d'.
Proof.
  intros H. split; [by apply restyled_preserved |].
  intros n e e' He He'.
  destruct (Forall2_lookup_lr _ _ _ _ _ _ H He He') as (_ & ? & ?). done.
Qed.

Lemma frame_refl c d : frame c d d.
Proof. apply restyled_frame, restyled_refl. Qed.

Lemma frame_trans c d1 d2 d3 : frame c d1 d2 -> frame c d2 d3 -> frame c d1 d3.
Proof.
  intros [H12 T12] [H23 T23]. split.
  - eapply Forall2_trans; [apply preserved_trans | done..].
  - intros n e1 e3 H1 H3.
    destruct (Forall2_lookup_l _ _ _ _ _ H12 H1) as (e2 & H2 & _).
    destruct (T12 _ _ _ H1 H2) as [Ta Tb], (T23 _ _ _ H2 H3) as [Tc Td].
    split; intros ?; [rewrite Tc, Ta | rewrite Td, Tb]; done.
Qed.


Lemma toggle_active_class_only : class_only (ClassList.toggle "active").
Proof.
  intros l. split; [intros c Ha _ | intros Hv];
    rewrite ClassListFacts.contains_toggle; [| done].
  destruct (String.eqb_spec c "active"); done.
Qed.

Lemma remove_active_class_only : class_only (ClassList.remove "active").
Proof.
  intros l. split; [intros c Ha _ | intros Hv];
    rewrite ClassListFacts.contains_remove; [| done].
  destruct (String.eqb_spec c "active"); done.
Qed.

Lemma add_active_class_only : class_only (ClassList.add "active").
Proof.
  intros l. split; [intros c Ha _ | intros Hv];
    rewrite ClassListFacts.contains_add; [| done].
  destruct (String.eqb_spec c "active"); done.
Qed.

Lemma add_visible_class_only : class_only (ClassList.add "visible").
Proof.
  intros l. split; [intros c _ Hv | intros _];
    rewrite ClassListFacts.contains_add; [| done].
  destruct (String.eqb_spec c "visible"); done.
Qed.

Create HintDb frames.

#[local] Hint Resolve toggle_active_class_only remove_active_class_only
  add_active_class_only add_visible_class_only restyled_refl : frames.

Lemma update_classes_restyled f n d :
  class_only f -> restyled d (update_classes f n d).
Proof.
  intros Hf. apply Forall2_alter_r; [apply restyled_refl |].
  intros e e' _ _ ((? & ? & ? & ? & ? & Hc & Hv) & ? & ?).
  destruct (Hf (classList e')) as [Hfc Hfv].
  repeat split; fields; try done.
  - intros c ? ?. rewrite Hfc; auto.
  - auto.
Qed.

Lemma preserved_matches sel e e' :
  stable sel -> preserved e e' -> matches sel e' = matches sel e.
Proof.
  intros Hs (Ht & Hi & Hh & _ & _ & Hc & _).
  destruct sel; cbn in *; rewrite ?Ht, ?Hi, ?Hh; try done.
  - apply Hc; tauto.
  - rewrite Hc; tauto.
Qed.

Lemma preserved_querySelectorAll d d' sel :
  stable sel -> Forall2 preserved d d' ->
  querySelectorAll d' sel = querySelectorAll d sel.
Proof.
  intros Hs H. symmetry. apply nodes_from_ext.
  eapply Forall2_impl; [done |]. intros e e' ?. symmetry. by apply preserved_matches.
Qed.

Lemma preserved_querySelector d d' sel :
  stable sel -> Forall2 preserved d d' -> querySelector d' sel = querySelector d sel.
Proof. intros. unfold querySelector. by rewrite (preserved_querySelectorAll d d'). Qed.

Lemma preserved_getElementById d d' i :
  Forall2 preserved d d' -> getElementById d' i = getElementById d i.
Proof.
  intros H. unfold getElementById. f_equal. symmetry. apply nodes_from_ext.
  eapply Forall2_impl; [done |]. intros e e' (_ & Hi & _). unfold has_id. by rewrite Hi.
Qed.

(** ** What each callback changes *)

Lemma dom_only_refl s : dom_only s s.
Proof. by destruct s. Qed.

Lemma dom_only_trans s1 s2 s3 : dom_only s1 s2 -> dom_only s2 s3 -> dom_only s1 s3.
Proof. unfold dom_only. intros H12 H23. rewrite H23 at 1. rewrite H12. done. Qed.

Lemma dom_only_with_dom f s : dom_only s (with_dom f s).
Proof. done. Qed.

#[local] Hint Resolve dom_only_refl dom_only_with_dom : frames.

Lemma toggleMenu_restyled c s : restyled (dom s) (dom (fst (toggleMenu c s))).
Proof.
  unfold toggleMenu. destruct (navToggle c), (navMenu c); cbn;
    eauto using restyled_trans, update_classes_restyled with frames.
Qed.

Lemma toggleMenu_dom_only c s : dom_only s (fst (toggleMenu c s)).
Proof. unfold toggleMenu, dom_only. by destruct s, (navToggle c), (navMenu c). Qed.

Lemma closeMenu_restyled c s : restyled (dom s) (dom (fst (closeMenu c s))).
Proof.
  unfold closeMenu. destruct (navToggle c), (navMenu c); cbn;
    eauto using restyled_trans, update_classes_restyled with frames.
Qed.

Lemma closeMenu_dom_only c s : dom_only s (fst (closeMenu c s)).
Proof. unfold closeMenu, dom_only. by destruct s, (navToggle c), (navMenu c). Qed.

Lemma smoothScroll_state resolve link s : fst (smoothScroll resolve link s) = s.
Proof. unfold smoothScroll. repeat case_match; done. Qed.

Lemma handleNavbarScroll_dom_only c s : dom_only s (fst (handleNavbarScroll c s)).
Proof. unfold handleNavbarScroll, dom_only. destruct (navbar c); by destruct s. Qed.

Lemma handleNavbarScroll_frame c s : frame c (dom s) (dom (fst (handleNavbarScroll c s))).
Proof.
  unfold handleNavbarScroll. destruct (navbar c) as [b |] eqn:Hb; cbn; [| apply frame_refl].
  split.
  - apply Forall2_alter_r.
    + apply Forall_Forall2_diag, Forall_forall. intros. apply preserved_refl.
    + intros e e' _ _ Hp. exact Hp.
  - intros n e e' He He'. destruct (decide (b = n)) as [-> | Hn].
    + rewrite list_lookup_alter_eq, He in He'. injection He' as <-. split; [done | congruence].
    + rewrite list_lookup_alter_ne, He in He' by done. injection He' as <-. done.
Qed.

Lemma highlightSection_restyled c y s section :
  restyled (dom s) (dom (highlightSection c y s section)).
Proof.
  unfold highlightSection. destruct (dom s !! section); [| apply restyled_refl].
  case_match; [| apply restyled_refl].
  assert (Hloop : forall links s0,
    restyled (dom s0) (dom (fold_left (fun s' link =>
      with_dom (update_classes (ClassList.remove "active") link) s') links s0))).
  { induction links as [| l links IH]; intros s0; cbn; [apply restyled_refl |].
    eapply restyled_trans; [| apply IH]. cbn.
    apply update_classes_restyled; auto with frames. }
  case_match; cbn; [| apply Hloop].
  eapply restyled_trans; [apply Hloop |].
  apply update_classes_restyled; auto with frames.
Qed.

Lemma highlightSection_dom_only c y s section :
  dom_only s (highlightSection c y s section).
Proof.
  unfold highlightSection. destruct (dom s !! section); [| apply dom_only_refl].
  case_match; [| apply dom_only_refl].
  assert (Hloop : forall links s0,
    dom_only s0 (fold_left (fun s' link =>
      with_dom (update_classes (ClassList.remove "active") link) s') links s0)).
  { induction links as [| l links IH]; intros s0; cbn; [apply dom_only_refl |].
    eapply dom_only_trans; [| apply IH]. apply dom_only_with_dom. }
  case_match; [| apply Hloop].
  eapply dom_only_trans; [apply Hloop | apply dom_only_with_dom].
Qed.

Lemma highlightNavLink_restyled c s :
  restyled (dom s) (dom (fst (highlightNavLink c s))).
Proof.
  unfold highlightNavLink. cbn. generalize (scrollY s + 100)%Q as y. intros y.
  revert s. induction (sections c) as [| x l IH]; intros s; cbn; [apply restyled_refl |].
  eapply restyled_trans; [apply highlightSection_restyled | apply IH].
Qed.

Lemma highlightNavLink_dom_only c s : dom_only s (fst (highlightNavLink c s)).
Proof.
  unfold highlightNavLink. cbn. generalize (scrollY s + 100)%Q as y. intros y.
  revert s. induction (sections c) as [| x l IH]; intros s; cbn; [apply dom_only_refl |].
  eapply dom_only_trans; [apply highlightSection_dom_only | apply IH].
Qed.

Lemma typeCharacter_frame c r s : frame c (dom s) (dom (fst (typeCharacter c r s))).
Proof.
  unfold typeCharacter. destruct (typedNameElement c) as [t |] eqn:Ht; [| apply frame_refl].
  case_match; [| apply frame_refl]. cbn. split.
  - apply Forall2_alter_r.
    + apply Forall_Forall2_diag, Forall_forall. intros. apply preserved_refl.
    + intros e e' _ _ Hp. exact Hp.
  - intros n e e' He He'. destruct (decide (t = n)) as [-> | Hn].
    + rewrite list_lookup_alter_eq, He in He'. injection He' as <-. split; [congruence | done].
    + rewrite list_lookup_alter_ne, He in He' by done. injection He' as <-. done.
Qed.

Lemma revealEntry_restyled s entry : restyled (dom s) (dom (fst (revealEntry s entry))).
Proof.
  unfold revealEntry. destruct (snd entry); cbn; [| apply restyled_refl].
  apply update_classes_restyled; auto with frames.
Qed.

Lemma fadeCallback_restyled entries s :
  restyled (dom s) (dom (fst (fadeCallback entries s))).
Proof.
  revert s. induction entries as [| entry rest IH]; intros s; cbn; [apply restyled_refl |].
  eapply restyled_trans; [apply revealEntry_restyled | apply IH].
Qed.

(** Callbacks run in a row keep what each of them keeps. *)
Lemma sequence_state (R : state -> state -> Prop) fs :
  (forall s, R s s) -> (forall s1 s2 s3, R s1 s2 -> R s2 s3 -> R s1 s3) ->
  Forall (fun f => forall s, R s (fst (f s))) fs ->
  forall s, R s (fst (sequence fs s)).
Proof.
  intros Hrefl Htrans Hfs. induction Hfs as [| f fs Hf _ IH]; intros s; cbn; [done |].
  eapply Htrans; [apply Hf | apply IH].
Qed.

Lemma sequence_effects (Q : effect -> Prop) fs :
  Forall (fun f => forall s, Forall Q (snd (f s))) fs ->
  forall s, Forall Q (snd (sequence fs s)).
Proof.
  intros Hfs. induction Hfs as [| f fs Hf _ IH]; intros s; cbn; [constructor |].
  apply Forall_app. split; [apply Hf | apply IH].
Qed.

Lemma run_click_listener_frame resolve c target l s :
  frame c (dom s) (dom (fst (run_click_listener resolve c target l s))).
Proof.
  destruct l; cbn.
  - apply restyled_frame, toggleMenu_restyled.
  - apply restyled_frame, closeMenu_restyled.
  - rewrite smoothScroll_state. apply frame_refl.
Qed.

Lemma run_scroll_listener_frame c l s :
  frame c (dom s) (dom (fst (run_scroll_listener c l s))).
Proof.
  destruct l; cbn; [apply frame_refl | apply handleNavbarScroll_frame].
Qed.

Lemma step_frame resolve c ev s : frame c (dom s) (dom (fst (step resolve c ev s))).
Proof.
  destruct ev as [target | y | | r | entries]; cbn.
  - apply (sequence_state (fun s s' => frame c (dom s) (dom s')));
      [intros; apply frame_refl | intros; by eapply frame_trans |].
    apply Forall_map, Forall_forall. intros l _ s0. apply run_click_listener_frame.
  - change (dom s) with (dom (with_scrollY y s)).
    apply (sequence_state (fun s s' => frame c (dom s) (dom s')));
      [intros; apply frame_refl | intros; by eapply frame_trans |].
    apply Forall_map, Forall_forall. intros l _ s0. apply run_scroll_listener_frame.
  - change (dom s) with (dom (with_raf (scrollTimeout s) (rafCounter s) [] s)).
    apply (sequence_state (fun s s' => frame c (dom s) (dom s')));
      [intros; apply frame_refl | intros; by eapply frame_trans |].
    apply Forall_map, Forall_forall. intros l _ s0.
    apply restyled_frame, highlightNavLink_restyled.
  - destruct (timers s); [apply frame_refl |].
    apply (typeCharacter_frame c r (with_timers _ s)).
  - destruct (fadeObserver c); [| apply frame_refl].
    apply restyled_frame, fadeCallback_restyled.
Qed.

Lemma run_frame resolve c trace s : frame c (dom s) (dom (fst (run resolve c trace s))).
Proof.
  revert s. induction trace as [| ev rest IH]; intros s; cbn; [apply frame_refl |].
  eapply frame_trans; [apply step_frame | apply IH].
Qed.

(** ** Which variables each event touches *)

Lemma sequence_keeps {A} (proj : state -> A) fs :
  Forall (fun f => forall s, proj (fst (f s)) = proj s) fs ->
  forall s, proj (fst (sequence fs s)) = proj s.
Proof.
  apply (sequence_state (fun s s' => proj s' = proj s)); [done | congruence].
Qed.

Lemma dom_only_typing_vars s s' : dom_only s s' -> typing_vars s' = typing_vars s.
Proof. intros ->. done. Qed.

Lemma dom_only_raf_vars s s' : dom_only s s' -> raf_vars s' = raf_vars s.
Proof. intros ->. done. Qed.

Lemma dom_only_observed s s' : dom_only s s' -> observed s' = observed s.
Proof. intros ->. done. Qed.

Lemma run_click_listener_dom_only resolve c target l s :
  dom_only s (fst (run_click_listener resolve c target l s)).
Proof.
  destruct l; cbn.
  - apply toggleMenu_dom_only.
  - apply closeMenu_dom_only.
  - rewrite smoothScroll_state. apply dom_only_refl.
Qed.

Lemma step_click_dom_only resolve c target s :
  dom_only s (fst (step resolve c (Click target) s)).
Proof.
  cbn. apply (sequence_state dom_only); [apply dom_only_refl | apply dom_only_trans |].
  apply Forall_map, Forall_forall. intros l _ s0. apply run_click_listener_dom_only.
Qed.

Lemma step_frame_raf resolve c s :
  let s' := fst (step resolve c AnimationFrame s) in
  dom_only (with_raf (scrollTimeout s) (rafCounter s) [] s) s'.
Proof.
  cbn. apply (sequence_state dom_only); [apply dom_only_refl | apply dom_only_trans |].
  apply Forall_map, Forall_forall. intros l _ s0. apply highlightNavLink_dom_only.
Qed.

Lemma fadeCallback_vars entries s :
  typing_vars (fst (fadeCallback entries s)) = typing_vars s /\
  raf_vars (fst (fadeCallback entries s)) = raf_vars s.
Proof.
  revert s. induction entries as [| entry rest IH]; intros s; cbn; [done |].
  destruct (IH (fst (revealEntry s entry))) as [-> ->].
  unfold revealEntry. by destruct (snd entry).
Qed.

Lemma typeCharacter_vars c r s :
  raf_vars (fst (typeCharacter c r s)) = raf_vars s /\
  observed (fst (typeCharacter c r s)) = observed s.
Proof. unfold typeCharacter. by repeat case_match. Qed.

Lemma run_scroll_listener_vars c l s :
  typing_vars (fst (run_scroll_listener c l s)) = typing_vars s /\
  observed (fst (run_scroll_listener c l s)) = observed s.
Proof.
  destruct l; cbn; [done |].
  pose proof (handleNavbarScroll_dom_only c s).
  split; [by apply dom_only_typing_vars | by apply dom_only_observed].
Qed.

Lemma step_typing_vars resolve c ev s :
  match ev with
  | Timeout _ => True
  | _ => typing_vars (fst (step resolve c ev s)) = typing_vars s
  end.
Proof.
  destruct ev as [target | y | | r | entries]; [| | | done |].
  - apply dom_only_typing_vars, step_click_dom_only.
  - cbn. change (typing_vars s) with (typing_vars (with_scrollY y s)).
    apply (sequence_keeps typing_vars).
    apply Forall_map, Forall_forall. intros l _ s0. apply run_scroll_listener_vars.
  - apply (dom_only_typing_vars _ _ (step_frame_raf resolve c s)).
  - cbn. destruct (fadeObserver c); [apply fadeCallback_vars | done].
Qed.

Lemma step_observed resolve c ev s :
  match ev with
  | Intersection _ => True
  | _ => observed (fst (step resolve c ev s)) = observed s
  end.
Proof.
  destruct ev as [target | y | | r | entries]; [| | | | done].
  - apply dom_only_observed, step_click_dom_only.
  - cbn. change (observed s) with (observed (with_scrollY y s)).
    apply (sequence_keeps observed).
    apply Forall_map, Forall_forall. intros l _ s0. apply run_scroll_listener_vars.
  - apply (dom_only_observed _ _ (step_frame_raf resolve c s)).
  - cbn. destruct (timers s); [done |]. apply (typeCharacter_vars c r (with_timers _ s)).
Qed.

Lemma step_raf_vars resolve c ev s :
  match ev with
  | Scroll _ => True
  | AnimationFrame =>
      raf_vars (fst (step resolve c ev s)) = (scrollTimeout s, rafCounter s, [])
  | _ => raf_vars (fst (step resolve c ev s)) = raf_vars s
  end.
Proof.
  destruct ev as [target | y | | r | entries]; [| done | | |].
  - apply dom_only_raf_vars, step_click_dom_only.
  - apply (dom_only_raf_vars _ _ (step_frame_raf resolve c s)).
  - cbn. destruct (timers s); [done |]. apply (typeCharacter_vars c r (with_timers _ s)).
  - cbn. destruct (fadeObserver c); [apply fadeCallback_vars | done].
Qed.

(** ** Page load *)

Lemma has_class_preserved c n d d' :
  c <> "active" -> c <> "visible" -> Forall2 preserved d d' ->
  has_class c n d' = has_class c n d.
Proof.
  intros Ha Hv H. unfold has_class.
  destruct (d !! n) as [e |] eqn:He.
  - destruct (Forall2_lookup_l _ _ _ _ _ H He) as (e' & -> & Hp).
    by apply Hp.
  - apply Forall2_length in H. apply lookup_ge_None in He.
    rewrite (proj2 (lookup_ge_None d' n)); [done | lia].
Qed.

Lemma has_visible_preserved n d d' :
  Forall2 preserved d d' ->
  has_class "visible" n d = true -> has_class "visible" n d' = true.
Proof.
  intros H. unfold has_class.
  destruct (d !! n) as [e |] eqn:He; [| done].
  destruct (Forall2_lookup_l _ _ _ _ _ H He) as (e' & -> & Hp).
  apply Hp.
Qed.

Lemma has_class_update_classes f c n m d :
  has_class c n (update_classes f m d) =
  match d !! n with
  | Some e => ClassList.contains c (if decide (m = n) then f (classList e) else classList e)
  | None => false
  end.
Proof.
  unfold has_class, update_classes. destruct (decide (m = n)) as [-> | Hne].
  - rewrite list_lookup_alter_eq. by destruct (d !! n).
  - by rewrite list_lookup_alter_ne.
Qed.

(** The fallback loop of lines 97-99. *)
Lemma show_all_restyled ns d :
  restyled d (fold_left (fun d' el => update_classes (ClassList.add "visible") el d') ns d).
Proof.
  revert d. induction ns as [| n ns IH]; intros d; cbn; [apply restyled_refl |].
  eapply restyled_trans; [| apply IH]. apply update_classes_restyled; auto with frames.
Qed.

Lemma show_all_visible ns d n :
  n ∈ ns -> n < length d ->
  has_class "visible" n
    (fold_left (fun d' el => update_classes (ClassList.add "visible") el d') ns d) = true.
Proof.
  revert d. induction ns as [| m ns IH]; intros d Hin Hlen; [by apply elem_of_nil in Hin |].
  cbn. destruct (decide (m = n)) as [-> | Hne].
  - eapply has_visible_preserved; [apply restyled_preserved, show_all_restyled |].
    rewrite has_class_update_classes.
    destruct (lookup_lt_is_Some_2 d n Hlen) as [e ->].
    rewrite decide_True by done. rewrite ClassListFacts.contains_add.
    by rewrite String.eqb_refl.
  - apply IH.
    + apply elem_of_cons in Hin as [-> | ?]; done.
    + unfold update_classes. by rewrite length_alter.
Qed.

Lemma loaded_restyled io y d : restyled d (dom (loaded io y d)).
Proof.
  unfold loaded, onDOMContentLoaded. cbn [fst snd].
  match goal with
  | |- context [highlightNavLink ?c ?s] =>
      apply (restyled_trans _ (dom s)); [| apply (highlightNavLink_restyled c s)]
  end.
  cbn [dom]. destruct io; [apply restyled_refl | apply show_all_restyled].
Qed.

Lemma after_frame resolve io y d trace :
  frame (script_of io y d) d (dom (after resolve io y d trace)).
Proof.
  eapply frame_trans; [apply restyled_frame, loaded_restyled | apply run_frame].
Qed.

(** The bindings are what the lookups give on the page as it was served. *)
Lemma script_of_bindings io y d :
  let c := script_of io y d in
  navToggle c = getElementById d "nav-toggle" /\
  navMenu c = getElementById d "nav-menu" /\
  smoothScrollLinks c = querySelectorAll d (AnchorHrefPrefix "#") /\
  fadeElements c = querySelectorAll d (ByClass "fade-in") /\
  fadeObserver c = io /\
  typedNameElement c = getElementById d "typed-name" /\
  sections c = querySelectorAll d SectionWithId /\
  navLinksForHighlight c = querySelectorAll d (ByClass "nav-link") /\
  navbar c = getElementById d "navbar" /\
  scrollListeners c = [ThrottledHighlight; HandleNavbarScroll].
Proof.
  cbn zeta. unfold script_of, onDOMContentLoaded. cbn [fst snd navToggle navMenu
    smoothScrollLinks fadeElements fadeObserver typedNameElement sections
    navLinksForHighlight navbar scrollListeners].
  set (d1 := if io then d else _).
  assert (H1 : restyled d d1) by (subst d1; destruct io; [apply restyled_refl | apply show_all_restyled]).
  apply restyled_preserved in H1 as P1.
  repeat split; try done.
  - by apply preserved_getElementById.
  - by apply preserved_querySelectorAll.
  - apply preserved_querySelectorAll; [by split | done].
  - apply preserved_getElementById.
    eapply Forall2_trans; [apply preserved_trans | exact P1 |].
    match goal with
    | |- context [highlightNavLink ?c ?s] =>
        apply (restyled_preserved _ _ (highlightNavLink_restyled c s))
    end.
Qed.

(** ** The claims *)

(** C9. Every delay [typeCharacter] hands to [setTimeout] is a whole number
    of milliseconds between 80 and 149, whichever binary64 number in [0, 1)
    [Math.random] returns; the product [r * 70] is taken in binary64
    arithmetic, rounding included. *)
Theorem typing_delay_range c r s delay :
  unit_interval r ->
  In (SetTimeout delay) (snd (typeCharacter c r s)) ->
  (80 <= delay <= 149)%Z.
Proof.
  intros Hr Hin. pose proof (floor_times70 r Hr) as Hfloor.
  unfold typeCharacter in Hin. destruct (typedNameElement c); [| done].
  case_match; [| done].
  cbn in Hin. destruct Hin as [[= <-] | []]. unfold delay_of. lia.
Qed.

Lemma typing_delay_range_witness :
  unit_interval (Double (2 ^ 53 - 1) (-53)) /\
  In (SetTimeout 149) (snd (typeCharacter (script_of true 0 portfolio)
                              (Double (2 ^ 53 - 1) (-53)) (loaded true 0 portfolio))) /\
  (80 <= 149 <= 149)%Z.
Proof.
  assert (Hr : unit_interval (Double (2 ^ 53 - 1) (-53))) by (unfold unit_interval; cbn; lia).
  assert (Hin : In (SetTimeout 149) (snd (typeCharacter (script_of true 0 portfolio)
                  (Double (2 ^ 53 - 1) (-53)) (loaded true 0 portfolio))))
    by (vm_compute; left; reflexivity).
  split; [exact Hr | split; [exact Hin |]].
  exact (typing_delay_range _ _ _ 149%Z Hr Hin).
Defined.





(** C10. Without [IntersectionObserver], every element of class 'fade-in'
    carries 'visible' once the page has loaded, and keeps it whatever
    happens next. *)
Theorem fallback_shows_all resolve y d trace n :
  has_class "fade-in" n (dom (after resolve false y d trace)) = true ->
  has_class "visible" n (dom (after resolve false y d trace)) = true.
Proof.
  intros Hfade.
  pose proof (after_frame resolve false y d trace) as [Hp _].
  rewrite (has_class_preserved "fade-in" n d) in Hfade by done.
  eapply has_visible_preserved.
  { unfold after. apply run_frame. }
  unfold loaded, onDOMContentLoaded. cbn [fst snd].
  match goal with
  | |- context [highlightNavLink ?c ?s] =>
      apply (has_visible_preserved n (dom s));
        [apply (restyled_preserved _ _ (highlightNavLink_restyled c s)) |]
  end.
  cbn [dom]. unfold has_class in Hfade.
  destruct (d !! n) as [e |] eqn:He; [| done].
  apply show_all_visible.
  - apply elem_of_querySelectorAll. by exists e.
  - by apply lookup_lt_Some in He.
Qed.

Lemma fallback_shows_all_witness :
  has_class "fade-in" 7 (dom (after id_engine false 0 portfolio [Scroll 700; AnimationFrame])) = true /\
  has_class "visible" 7 (dom (after id_engine false 0 portfolio [Scroll 700; AnimationFrame])) = true.
Proof.
  assert (H : has_class "fade-in" 7
                (dom (after id_engine false 0 portfolio [Scroll 700; AnimationFrame])) = true)
    by (vm_compute; reflexivity).
  split; [exact H |].
  exact (fallback_shows_all id_engine 0 portfolio [Scroll 700; AnimationFrame] 7 H).
Defined.

(** ** The menu *)

Lemma has_class_update c f n m d :
  has_class c n (update_classes f m d) =
  if decide (m = n)
  then match d !! n with
       | Some e => ClassList.contains c (f (classList e))
       | None => false
       end
  else has_class c n d.
Proof.
  rewrite has_class_update_classes. unfold has_class.
  destruct (decide (m = n)), (d !! n); done.
Qed.

Lemma has_class_toggle c n d :
  n < length d ->
  has_class c n (update_classes (ClassList.toggle c) n d) = negb (has_class c n d).
Proof.
  intros Hn. rewrite has_class_update, decide_True by done. unfold has_class.
  destruct (lookup_lt_is_Some_2 d n Hn) as [e ->].
  by rewrite ClassListFacts.contains_toggle, String.eqb_refl.
Qed.

Lemma has_class_remove c n d :
  has_class c n (update_classes (ClassList.remove c) n d) = false.
Proof.
  rewrite has_class_update, decide_True by done.
  destruct (d !! n); [| done].
  by rewrite ClassListFacts.contains_remove, String.eqb_refl.
Qed.

Lemma has_class_update_ne c f n m d :
  m <> n -> has_class c n (update_classes f m d) = has_class c n d.
Proof. intros. by rewrite has_class_update, decide_False. Qed.

Lemma length_update_classes f n d : length (update_classes f n d) = length d.
Proof. apply length_alter. Qed.

Lemma toggleMenu_flips c s t m :
  navToggle c = Some t -> navMenu c = Some m -> t <> m ->
  t < length (dom s) -> m < length (dom s) ->
  has_class "active" t (dom (fst (toggleMenu c s))) = negb (has_class "active" t (dom s)) /\
  has_class "active" m (dom (fst (toggleMenu c s))) = negb (has_class "active" m (dom s)) /\
  snd (toggleMenu c s) = [].
Proof.
  intros Ht Hm Hne Hlt Hlm. unfold toggleMenu. rewrite Ht, Hm. cbn.
  repeat split.
  - rewrite has_class_update_ne by done. by apply has_class_toggle.
  - rewrite has_class_toggle by (by rewrite length_update_classes).
    by rewrite has_class_update_ne.
Qed.

Lemma closeMenu_clears c s t m :
  navToggle c = Some t -> navMenu c = Some m ->
  has_class "active" t (dom (fst (closeMenu c s))) = false /\
  has_class "active" m (dom (fst (closeMenu c s))) = false /\
  snd (closeMenu c s) = [].
Proof.
  intros Ht Hm. unfold closeMenu. rewrite Ht, Hm. cbn.
  repeat split.
  - destruct (decide (m = t)) as [-> | ?]; [apply has_class_remove |].
    rewrite has_class_update_ne by done. apply has_class_remove.
  - apply has_class_remove.
Qed.

(** Listeners registered by one [forEach] over a node list. *)
Lemma listeners_of_each (k : click_listener) ns n :
  NoDup ns ->
  map snd (List.filter (fun r : node * click_listener => Nat.eqb (fst r) n)
                       (map (fun l => (l, k)) ns))
  = if decide (n ∈ ns) then [k] else [].
Proof.
  induction 1 as [| x ns Hx _ IH]; cbn; [done |].
  destruct (Nat.eqb_spec x n) as [-> | Hne]; cbn; rewrite IH.
  - destruct (decide (n ∈ ns)); [done |].
    destruct (decide (n ∈ n :: ns)) as [_ | Hn]; [done |].
    destruct Hn. left.
  - destruct (decide (n ∈ ns)) as [Hin | Hin];
      destruct (decide (n ∈ x :: ns)) as [Hin' | Hin']; try done.
    + destruct Hin'. by right.
    + apply elem_of_cons in Hin' as [-> | ?]; done.
Qed.

Lemma listeners_of_script io y d n :
  listeners_of (script_of io y d) n =
  match getElementById d "nav-toggle", getElementById d "nav-menu" with
  | Some t, Some _ =>
      (if decide (n = t) then [ToggleMenu] else []) ++
      (if decide (n ∈ querySelectorAll d (ByClass "nav-link")) then [CloseMenu] else [])
  | _, _ => []
  end ++
  (if decide (n ∈ querySelectorAll d (AnchorHrefPrefix "#")) then [SmoothScroll] else []).
Proof.
  unfold listeners_of, script_of, onDOMContentLoaded. cbn [fst clickListeners].
  rewrite List.filter_app, map_app.
  rewrite (listeners_of_each SmoothScroll) by apply querySelectorAll_NoDup.
  f_equal.
  destruct (getElementById d "nav-toggle") as [t |]; [| done].
  destruct (getElementById d "nav-menu") as [m |]; [| done].
  cbn [List.filter map fst snd].
  rewrite <- (listeners_of_each CloseMenu) by apply querySelectorAll_NoDup.
  destruct (Nat.eqb_spec t n) as [-> | Hne].
  - by rewrite decide_True.
  - by rewrite decide_False.
Qed.

Lemma has_class_elem_of c n d :
  has_class c n d = true <-> n ∈ querySelectorAll d (ByClass c).
Proof.
  rewrite elem_of_querySelectorAll. unfold has_class. split.
  - destruct (d !! n) as [e |]; [| done]. intros. by exists e.
  - intros (e & -> & ?). done.
Qed.

Lemma sequence_cons f fs s :
  sequence (f :: fs) s = and_then (f s) (sequence fs).
Proof. done. Qed.

(** A nav link's listeners leave the menu closed, whichever they are. *)
Lemma click_listeners_end_closed resolve c t m target (rest : bool) s :
  navToggle c = Some t -> navMenu c = Some m ->
  let s' := fst (sequence (map (run_click_listener resolve c target)
                             (CloseMenu ::
                              (if rest then [SmoothScroll] else []))) s) in
  has_class "active" t (dom s') = false /\ has_class "active" m (dom s') = false.
Proof.
  intros Ht Hm. destruct (closeMenu_clears c s t m Ht Hm) as (? & ? & _).
  destruct rest; cbn; rewrite ?smoothScroll_state; done.
Qed.



(** Where the toggle is itself a nav link, its second listener closes the
    menu its first one opened. *)
Example toggle_as_nav_link_stays_closed :
  listeners_of (script_of true 0 toggle_is_link) 0 = [ToggleMenu; CloseMenu; SmoothScroll] /\
  has_class "active" 0 (dom (loaded true 0 toggle_is_link)) = false /\
  has_class "active" 0
    (dom (fst (step id_engine (script_of true 0 toggle_is_link) (Click 0)
                 (loaded true 0 toggle_is_link)))) = false.
Proof. vm_compute. repeat split. Qed.

(** ** Smooth scrolling *)

Lemma getAttribute_href_preserved d d' n :
  Forall2 preserved d d' -> getAttribute_href d' n = getAttribute_href d n.
Proof.
  intros H. unfold getAttribute_href.
  destruct (d !! n) as [e |] eqn:He.
  - destruct (Forall2_lookup_l _ _ _ _ _ H He) as (e' & -> & Hp). apply Hp.
  - apply Forall2_length in H. apply lookup_ge_None in He.
    rewrite (proj2 (lookup_ge_None d' n)); [done | lia].
Qed.

(** C6, as amended. On every anchor whose href begins with '#' the script
    registers a click listener.  When the href is '#' alone the listener
    does nothing; otherwise it prevents the default action and, exactly when
    [document.querySelector(href)] finds an element, scrolls that element
    into view. *)
Theorem smooth_scroll_click resolve io y d trace link h :
  In link (querySelectorAll d (AnchorHrefPrefix "#")) ->
  getAttribute_href d link = Some h ->
  let c := script_of io y d in
  let s := after resolve io y d trace in
  let effs := snd (smoothScroll resolve link s) in
  In SmoothScroll (listeners_of c link) /\
  (h = "#" -> effs = []) /\
  (h <> "#" ->
   In (PreventDefault link) effs /\
   forall target, In (ScrollIntoView target) effs <-> resolve (dom s) h = Found target).
Proof.
  intros Hlink Hh c s effs.
  assert (Hhs : getAttribute_href (dom s) link = Some h).
  { rewrite <- Hh. apply getAttribute_href_preserved, after_frame. }
  split; [| split].
  - unfold c. rewrite listeners_of_script. apply in_or_app. right.
    rewrite decide_True by (by apply list_elem_of_In). by left.
  - intros ->. unfold effs, smoothScroll. by rewrite Hhs.
  - intros Hne. unfold effs, smoothScroll. rewrite Hhs. cbn [to_string is_string].
    destruct (String.eqb_spec h "#") as [? | _]; [done |]. cbn [negb snd].
    split; [by left |].
    intros target. destruct (resolve (dom s) h) as [n | |]; cbn; split.
    + intros [[=] | [[= ->] | []]]. done.
    + intros [= ->]. right. by left.
    + intros [[=] | []].
    + done.
    + intros [[=] | [[=] | []]].
    + done.
Qed.

Lemma smooth_scroll_click_witness :
  In 3 (querySelectorAll portfolio (AnchorHrefPrefix "#")) /\
  getAttribute_href portfolio 3 = Some "#home" /\
  let c := script_of true 0 portfolio in
  let s := after id_engine true 0 portfolio [Scroll 5] in
  let effs := snd (smoothScroll id_engine 3 s) in
  In SmoothScroll (listeners_of c 3) /\
  ("#home" = "#" -> effs = []) /\
  ("#home" <> "#" ->
   In (PreventDefault 3) effs /\
   forall target, In (ScrollIntoView target) effs <-> id_engine (dom s) "#home" = Found target).
Proof.
  assert (Hl : In 3 (querySelectorAll portfolio (AnchorHrefPrefix "#")))
    by (vm_compute; left; reflexivity).
  assert (Hh : getAttribute_href portfolio 3 = Some "#home") by reflexivity.
  split; [exact Hl | split; [exact Hh |]].
  exact (smooth_scroll_click id_engine true 0 portfolio [Scroll 5] 3 "#home" Hl Hh).
Defined.

(** C6 as worded fails on the anchor whose href is '#' alone: a click on it
    goes through without [preventDefault] and without scrolling. *)
Lemma bare_hash_not_prevented :
  In 8 (querySelectorAll portfolio (AnchorHrefPrefix "#")) /\
  ~ In (PreventDefault 8)
       (snd (step id_engine (script_of true 0 portfolio) (Click 8) (loaded true 0 portfolio))).
Proof. split; [vm_compute; tauto | vm_compute; tauto]. Qed.

(** ** Effects of each event *)

Lemma invocations_app w a b :
  invocations w (a ++ b) = invocations w a + invocations w b.
Proof. unfold invocations. by rewrite List.filter_app, length_app. Qed.

Lemma reveals_app n a b : reveals n (a ++ b) = reveals n a + reveals n b.
Proof. unfold reveals. by rewrite List.filter_app, length_app. Qed.

Lemma fadeCallback_emits entries s x :
  Forall (emits (Intersection x)) (snd (fadeCallback entries s)).
Proof.
  revert s. induction entries as [| entry rest IH]; intros s; cbn; [constructor |].
  apply Forall_app. split; [| apply IH].
  unfold revealEntry. destruct (snd entry); cbn; repeat constructor.
Qed.

Lemma step_emits resolve c ev s : Forall (emits ev) (snd (step resolve c ev s)).
Proof.
  destruct ev as [target | y | | r | entries]; cbn [step].
  - apply sequence_effects, Forall_map, Forall_forall. intros l _ s0.
    destruct l; cbn.
    + unfold toggleMenu. destruct (navToggle c), (navMenu c); cbn; repeat constructor.
    + unfold closeMenu. destruct (navToggle c), (navMenu c); cbn; repeat constructor.
    + unfold smoothScroll. repeat case_match; cbn; repeat constructor.
  - apply sequence_effects, Forall_map, Forall_forall. intros l _ s0.
    destruct l; cbn.
    + unfold throttledHighlight. repeat case_match; cbn; repeat constructor.
    + unfold handleNavbarScroll. destruct (navbar c); cbn; repeat constructor.
  - apply sequence_effects, Forall_map, Forall_forall. intros l _ s0.
    cbn. repeat constructor.
  - destruct (timers s); [constructor |].
    unfold typeCharacter. repeat case_match; cbn; repeat constructor.
  - destruct (fadeObserver c); [apply fadeCallback_emits | constructor].
Qed.

Lemma emits_invocations ev w effs :
  Forall (emits ev) effs ->
  match ev, w with
  | AnimationFrame, Highlight | Scroll _, NavbarBackground => True
  | _, _ => invocations w effs = 0
  end.
Proof.
  intros H. destruct ev, w; try done;
    (induction H as [| e effs He _ IH]; [done |]);
    destruct e as [| | | | | | [] | []]; cbn in He; try done; exact IH.
Qed.

Lemma emits_reveals ev n effs :
  Forall (emits ev) effs ->
  match ev with
  | Intersection _ => True
  | _ => reveals n effs = 0
  end.
Proof.
  intros H. destruct ev; try done;
    (induction H as [| e effs He _ IH]; [done |]);
    destruct e as [| | | | | | [] | []]; cbn in He; try done; exact IH.
Qed.

(** ** The scroll throttle *)

Lemma raf_ok_vars s s' : raf_vars s' = raf_vars s -> raf_ok s -> raf_ok s'.
Proof. unfold raf_vars, raf_ok. intros [= -> _ ->]. done. Qed.

Lemma throttledHighlight_raf_ok s : raf_ok s -> raf_ok (fst (throttledHighlight s)).
Proof.
  intros [Hnil | (h & Hh & Hp)]; right; exists (rafCounter s);
    unfold throttledHighlight; cbn.
  - rewrite Hnil. split; [done |]. by repeat case_match.
  - rewrite Hh, Hp. cbn. rewrite Nat.eqb_refl. done.
Qed.

Lemma step_raf_ok resolve c ev s : raf_ok s -> raf_ok (fst (step resolve c ev s)).
Proof.
  intros Hs. pose proof (step_raf_vars resolve c ev s) as Hv.
  destruct ev as [target | y | | r | entries]; try (by eapply raf_ok_vars).
  - cbn [step].
    apply (sequence_state (fun s s' => raf_ok s -> raf_ok s')); [done | auto | | done].
    apply Forall_map, Forall_forall. intros l _ s0. destruct l; cbn.
    + apply throttledHighlight_raf_ok.
    + apply raf_ok_vars, dom_only_raf_vars, handleNavbarScroll_dom_only.
  - left. by injection Hv.
Qed.

Lemma loaded_raf_ok io y d : raf_ok (loaded io y d).
Proof.
  unfold loaded, onDOMContentLoaded. cbn [fst snd].
  match goal with
  | |- context [highlightNavLink ?c ?s] =>
      apply (raf_ok_vars s); [apply dom_only_raf_vars, highlightNavLink_dom_only |]
  end.
  by left.
Qed.

Lemma run_raf_ok resolve c trace s : raf_ok s -> raf_ok (fst (run resolve c trace s)).
Proof.
  revert s. induction trace as [| ev rest IH]; intros s Hs; cbn; [done |].
  apply IH. by apply step_raf_ok.
Qed.

Lemma frame_invocations resolve c s :
  invocations Highlight (snd (step resolve c AnimationFrame s)) = length (rafPending s).
Proof.
  cbn [step]. generalize (with_raf (scrollTimeout s) (rafCounter s) [] s) as s0.
  induction (rafPending s) as [| h hs IH]; intros s0; [done |].
  cbn [map]. rewrite sequence_cons. unfold and_then. cbn [snd].
  rewrite invocations_app, IH. done.
Qed.

(** What one event makes of the two scroll-driven functions. *)
Lemma step_invocations resolve c ev s :
  scrollListeners c = [ThrottledHighlight; HandleNavbarScroll] -> raf_ok s ->
  let effs := snd (step resolve c ev s) in
  invocations Highlight effs <= match ev with AnimationFrame => 1 | _ => 0 end /\
  invocations NavbarBackground effs = match ev with Scroll _ => 1 | _ => 0 end.
Proof.
  intros Hl Hs effs. subst effs.
  pose proof (step_emits resolve c ev s) as Hemits.
  pose proof (emits_invocations ev Highlight _ Hemits) as Hh.
  pose proof (emits_invocations ev NavbarBackground _ Hemits) as Hn.
  destruct ev as [target | y | | r | entries]; cbn beta iota in *;
    try (split; [lia | done]).
  - split; [lia |]. cbn [step]. rewrite Hl. cbn.
    unfold throttledHighlight, handleNavbarScroll.
    repeat case_match; reflexivity.
  - split; [| done]. rewrite frame_invocations.
    destruct Hs as [-> | (h & _ & ->)]; cbn; lia.
Qed.

Lemma run_invocations resolve c trace s :
  scrollListeners c = [ThrottledHighlight; HandleNavbarScroll] -> raf_ok s ->
  invocations Highlight (snd (run resolve c trace s)) <= frames trace /\
  invocations NavbarBackground (snd (run resolve c trace s)) = scrolls trace.
Proof.
  intros Hl. revert s. induction trace as [| ev rest IH]; intros s Hs; [done |].
  cbn [run]. unfold and_then. cbn [snd fst]. rewrite !invocations_app.
  destruct (step_invocations resolve c ev s Hl Hs) as [Hh Hn].
  destruct (IH (fst (step resolve c ev s)) (step_raf_ok resolve c ev s Hs)) as [IHh IHn].
  rewrite Hn, IHn. unfold frames, scrolls in *.
  destruct ev; cbn [List.filter length] in *; split; lia.
Qed.



(** ** The intersection observer *)

Lemma deliverable_observed obs entries n b :
  In (n, b) (deliverable obs entries) -> In n obs.
Proof.
  revert obs. induction entries as [| [t b'] rest IH]; intros obs; cbn; [done |].
  destruct (existsb (Nat.eqb t) obs) eqn:Ht.
  - intros [[= -> ->] | Hin].
    + apply existsb_exists in Ht as (x & Hx & ->%Nat.eqb_eq). done.
    + apply IH in Hin. apply filter_In in Hin. tauto.
  - apply IH.
Qed.

Lemma deliverable_NoDup obs entries : List.NoDup (map fst (deliverable obs entries)).
Proof.
  revert obs. induction entries as [| [t b] rest IH]; intros obs; cbn; [constructor |].
  destruct (existsb (Nat.eqb t) obs); [| apply IH].
  cbn. constructor; [| apply IH].
  intros Hin. apply in_map_iff in Hin as ([t' b'] & Heq & Hin). cbn in Heq. subst t'.
  apply deliverable_observed, filter_In in Hin as [_ Hin].
  by rewrite Nat.eqb_refl in Hin.
Qed.

Lemma in_entry_dec (x : node * bool) es : {In x es} + {~ In x es}.
Proof.
  destruct (decide (x ∈ es)) as [H | H]; [left | right]; by rewrite <- list_elem_of_In.
Qed.

Lemma fadeCallback_reveals es s n :
  List.NoDup (map fst es) ->
  reveals n (snd (fadeCallback es s)) = if in_entry_dec (n, true) es then 1 else 0.
Proof.
  revert s. induction es as [| [t b] rest IH]; intros s Hnd.
  { by destruct (in_entry_dec (n, true) []) as [[] | _]. }
  apply List.NoDup_cons_iff in Hnd as [Ht Hnd].
  cbn [fadeCallback]. unfold and_then. cbn [snd fst]. rewrite reveals_app, IH by done.
  unfold revealEntry. cbn [fst snd].
  destruct (in_entry_dec (n, true) rest) as [Hin | Hin];
    destruct (in_entry_dec (n, true) ((t, b) :: rest)) as [Hin' | Hin'].
  - assert (t <> n) by (intros ->; apply Ht, in_map_iff; by exists (n, true)).
    destruct b; cbn; [| done]. by destruct (Nat.eqb_spec t n).
  - destruct Hin'. by right.
  - destruct Hin' as [[= -> ->] | ?]; [| done]. cbn. by rewrite Nat.eqb_refl.
  - destruct b; cbn; [| done].
    destruct (Nat.eqb_spec t n) as [-> | ?]; [| done]. destruct Hin'. by left.
Qed.

Lemma fadeCallback_observed es s m :
  In m (observed (fst (fadeCallback es s))) <-> In m (observed s) /\ ~ In (m, true) es.
Proof.
  revert s. induction es as [| [t b] rest IH]; intros s; [cbn; tauto |].
  cbn [fadeCallback]. unfold and_then. cbn [fst]. rewrite IH.
  unfold revealEntry. cbn [fst snd]. destruct b; cbn [fst observed with_observed with_dom].
  - rewrite filter_In. destruct (Nat.eqb_spec m t) as [-> | Hne]; cbn.
    + split; [intros [[_ [=]] _] | intros [_ []]; by left].
    + split; [intros [[? _] ?] | intros [? Hn]].
      * split; [done |]. intros [[=] | ?]; done.
      * repeat split; try done. intros ?. apply Hn. by right.
  - split; intros [? Hn]; (split; [done |]).
    + intros [[=] | ?]; done.
    + intros ?. apply Hn. by right.
Qed.

Lemma fadeCallback_visible es s n :
  In (n, true) es -> n < length (dom s) ->
  has_class "visible" n (dom (fst (fadeCallback es s))) = true.
Proof.
  revert s. induction es as [| [t b] rest IH]; intros s Hin Hlen; [done |].
  cbn [fadeCallback]. unfold and_then. cbn [fst].
  destruct Hin as [[= -> ->] | Hin].
  - eapply has_visible_preserved; [apply restyled_preserved, fadeCallback_restyled |].
    unfold revealEntry. cbn [fst snd dom with_dom with_observed].
    rewrite has_class_update, decide_True by done.
    destruct (lookup_lt_is_Some_2 _ _ Hlen) as [e ->].
    by rewrite ClassListFacts.contains_add, String.eqb_refl.
  - apply IH; [done |].
    pose proof (revealEntry_restyled s (t, b)) as H%Forall2_length. lia.
Qed.

(** What one event makes of the observer and a node [n]. *)
Lemma step_reveals resolve c ev s n :
  let o := step resolve c ev s in
  reveals n (snd o) <= 1 /\
  (reveals n (snd o) = 1 -> ~ In n (observed (fst o))) /\
  (~ In n (observed s) -> reveals n (snd o) = 0 /\ ~ In n (observed (fst o))).
Proof.
  cbn zeta.
  pose proof (emits_reveals ev n _ (step_emits resolve c ev s)) as Hr.
  pose proof (step_observed resolve c ev s) as Ho.
  destruct ev as [target | y | | r | entries];
    try (rewrite Hr, Ho; repeat split; (lia || done)).
  cbn [step]. destruct (fadeObserver c); [| cbn; repeat split; (lia || done)].
  rewrite fadeCallback_reveals by apply deliverable_NoDup.
  rewrite fadeCallback_observed.
  destruct (in_entry_dec (n, true) (deliverable (observed s) entries)) as [Hin | Hin].
  - split; [lia |]. split.
    + intros _ [_ Hn]. done.
    + intros Hn. destruct Hn. by eapply deliverable_observed.
  - split; [lia |]. split; [done |].
    intros Hn. split; [done | tauto].
Qed.

Lemma run_reveals resolve c trace s n :
  let o := run resolve c trace s in
  reveals n (snd o) <= 1 /\
  (~ In n (observed s) -> reveals n (snd o) = 0 /\ ~ In n (observed (fst o))).
Proof.
  cbn zeta. revert s. induction trace as [| ev rest IH]; intros s; [cbn; split; [lia | done] |].
  cbn [run]. unfold and_then. cbn [fst snd]. rewrite reveals_app.
  destruct (step_reveals resolve c ev s n) as (Hle & Hone & Hout).
  destruct (IH (fst (step resolve c ev s))) as [IHle IHout].
  split.
  - destruct (decide (reveals n (snd (step resolve c ev s)) = 1)) as [H1 | H1].
    + destruct (IHout (Hone H1)) as [-> _]. lia.
    + lia.
  - intros Hn. destruct (Hout Hn) as [-> Hn']. destruct (IHout Hn') as [-> ?]. done.
Qed.

Lemma loaded_observed io y d :
  observed (loaded io y d) = if io then querySelectorAll d (ByClass "fade-in") else [].
Proof.
  unfold loaded, onDOMContentLoaded. cbn [fst snd].
  match goal with
  | |- context [highlightNavLink ?c ?s] =>
      rewrite (dom_only_observed s _ (highlightNavLink_dom_only c s))
  end.
  done.
Qed.

(** The observer's targets are nodes of the page, at any time. *)
Lemma after_observed resolve y d trace n :
  In n (observed (after resolve true y d trace)) ->
  In n (querySelectorAll d (ByClass "fade-in")) /\
  n < length (dom (after resolve true y d trace)).
Proof.
  intros Hin.
  assert (Hl : In n (observed (loaded true y d))).
  { destruct (decide (n ∈ observed (loaded true y d))) as [H | H];
      [by apply list_elem_of_In |].
    rewrite list_elem_of_In in H.
    destruct (run_reveals resolve (script_of true y d) trace (loaded true y d) n) as [_ Hout].
    destruct (Hout H) as [_ []]. exact Hin. }
  rewrite loaded_observed in Hl. split; [done |].
  apply list_elem_of_In, elem_of_querySelectorAll in Hl as (e & He%lookup_lt_Some & _).
  pose proof (after_frame resolve true y d trace) as [Hlen%Forall2_length _]. lia.
Qed.



(** ** The typing effect *)

Lemma append_cons a (s1 s2 : string) : (String a s1 ++ s2)%string = String a (s1 ++ s2).
Proof. reflexivity. Qed.

Lemma append_empty (s : string) : ("" ++ s)%string = s.
Proof. reflexivity. Qed.

Lemma append_assoc (a b c : string) : ((a ++ b) ++ c)%string = (a ++ (b ++ c))%string.
Proof.
  induction a as [| x a IH]; [by rewrite !append_empty |].
  by rewrite !append_cons, IH.
Qed.

Lemma substring_snoc (s : string) k :
  k < String.length s ->
  (String.substring 0 k s ++ charAt k s)%string = String.substring 0 (S k) s.
Proof.
  revert k. induction s as [| a s IH]; intros k Hk; cbn in Hk; [lia |].
  destruct k as [| k].
  - cbn. by destruct s.
  - cbn [String.substring]. rewrite <- (IH k) by lia.
    rewrite append_cons. unfold charAt. cbn [String.get]. done.
Qed.

Lemma same_text_text_of d d' n : same_text d d' -> text_of n d' = text_of n d.
Proof.
  intros H. unfold text_of. destruct (d !! n) as [e |] eqn:He.
  - by destruct (Forall2_lookup_l _ _ _ _ _ H He) as (e' & -> & ->).
  - apply Forall2_length in H. apply lookup_ge_None in He.
    rewrite (proj2 (lookup_ge_None d' n)); [done | lia].
Qed.

Lemma same_text_refl d : same_text d d.
Proof. apply Forall_Forall2_diag, Forall_forall. done. Qed.

Lemma same_text_trans d1 d2 d3 : same_text d1 d2 -> same_text d2 d3 -> same_text d1 d3.
Proof. apply Forall2_trans. congruence. Qed.

Lemma restyled_same_text d d' : restyled d d' -> same_text d d'.
Proof. intros H. eapply Forall2_impl; [done |]. by intros ? ? (_ & ? & _). Qed.

Lemma handleNavbarScroll_same_text c s :
  same_text (dom s) (dom (fst (handleNavbarScroll c s))).
Proof.
  unfold handleNavbarScroll. destruct (navbar c); cbn; [| apply same_text_refl].
  apply Forall2_alter_r; [apply same_text_refl | done].
Qed.

Lemma step_same_text resolve c ev s :
  match ev with
  | Timeout _ => True
  | _ => same_text (dom s) (dom (fst (step resolve c ev s)))
  end.
Proof.
  destruct ev as [target | y | | r | entries]; [| | | done |]; cbn [step].
  - apply restyled_same_text.
    apply (sequence_state (fun s s' => restyled (dom s) (dom s')));
      [intros; apply restyled_refl | intros; by eapply restyled_trans |].
    apply Forall_map, Forall_forall. intros l _ s0. destruct l; cbn.
    + apply toggleMenu_restyled.
    + apply closeMenu_restyled.
    + rewrite smoothScroll_state. apply restyled_refl.
  - change (dom s) with (dom (with_scrollY y s)).
    apply (sequence_state (fun s s' => same_text (dom s) (dom s')));
      [intros; apply same_text_refl | intros; by eapply same_text_trans |].
    apply Forall_map, Forall_forall. intros l _ s0. destruct l; cbn.
    + apply same_text_refl.
    + apply handleNavbarScroll_same_text.
  - apply restyled_same_text.
    change (dom s) with (dom (with_raf (scrollTimeout s) (rafCounter s) [] s)).
    apply (sequence_state (fun s s' => restyled (dom s) (dom s')));
      [intros; apply restyled_refl | intros; by eapply restyled_trans |].
    apply Forall_map, Forall_forall. intros l _ s0. apply highlightNavLink_restyled.
  - destruct (fadeObserver c); [| apply same_text_refl].
    apply restyled_same_text, fadeCallback_restyled.
Qed.

Lemma typeCharacter_types c r s t :
  typedNameElement c = Some t -> t < length (dom s) ->
  charIndex s < String.length nameToType ->
  let o := typeCharacter c r s in
  charIndex (fst o) = S (charIndex s) /\
  text_of t (dom (fst o)) = (text_of t (dom s) ++ charAt (charIndex s) nameToType)%string /\
  timers (fst o) = timers s ++ [delay_of r] /\
  snd o = [SetTimeout (delay_of r)].
Proof.
  intros Ht Hlen Hi. unfold typeCharacter. rewrite Ht.
  destruct (Nat.ltb_spec (charIndex s) (String.length nameToType)); [| lia].
  cbn. repeat split. unfold text_of. rewrite list_lookup_alter_eq.
  by destruct (lookup_lt_is_Some_2 _ _ Hlen) as [e ->].
Qed.

Lemma typeCharacter_done c r s :
  String.length nameToType <= charIndex s -> typeCharacter c r s = (s, []).
Proof.
  intros Hi. unfold typeCharacter. destruct (typedNameElement c); [| done].
  by destruct (Nat.ltb_spec (charIndex s) (String.length nameToType)); [lia |].
Qed.

(** One event, counted as a timer event or not, keeps the typing effect on
    course. *)
Lemma step_typed resolve c ev s init t k :
  typedNameElement c = Some t -> t < length (dom s) ->
  typed init t k s ->
  typed init t (k + timeouts [ev]) (fst (step resolve c ev s)).
Proof.
  intros Ht Hlen (Hi & Htext & Htimers).
  pose proof (step_typing_vars resolve c ev s) as Hv.
  pose proof (step_same_text resolve c ev s) as Hs.
  assert (Hother : typing_vars (fst (step resolve c ev s)) = typing_vars s ->
                   same_text (dom s) (dom (fst (step resolve c ev s))) ->
                   typed init t (k + 0) (fst (step resolve c ev s))).
  { intros [= Hc Htm] Hst. rewrite Nat.add_0_r. unfold typed.
    rewrite Hc, Htm, (same_text_text_of _ _ _ Hst). done. }
  destruct ev as [target | y | | r | entries]; try (by apply Hother).
  clear Hv Hs Hother. unfold timeouts. cbn [List.filter length step].
  unfold typed. change (String.length nameToType) with 21 in *.
  destruct (Nat.leb_spec k 21) as [Hk | Hk].
  - (* a timer is pending *)
    destruct (timers s) as [| delay [| ? ?]] eqn:Hts; try done.
    rewrite Nat.min_l in Hi, Htext by done.
    destruct (decide (k = 21)) as [-> | Hne].
    + (* the whole name is typed: the callback returns at once *)
      rewrite typeCharacter_done
        by (change (String.length nameToType) with 21; cbn [charIndex with_timers]; lia).
      cbn [fst charIndex dom timers with_timers]. done.
    + destruct (typeCharacter_types c r (with_timers [] s) t Ht Hlen)
        as (Hc & Hx & Htm & _);
        [change (String.length nameToType) with 21; cbn [charIndex with_timers]; lia |].
      rewrite Hc, Hx, Htm. cbn [charIndex dom timers with_timers].
      rewrite !Nat.min_l by lia.
      destruct (Nat.leb_spec (k + 1) 21); [| lia].
      split; [lia |]. split; [| done].
      rewrite Htext, Hi, append_assoc, substring_snoc
        by (change (String.length nameToType) with 21; lia).
      by replace (k + 1) with (S k) by lia.
  - (* no timer is left *)
    destruct (timers s) eqn:Hts; [| done].
    cbn [fst].
    rewrite Nat.min_r in Hi, Htext by lia. rewrite !Nat.min_r by lia.
    destruct (Nat.leb_spec (k + 1) 21); [lia |]. by rewrite Hts.
Qed.

Lemma timeouts_cons ev trace : timeouts (ev :: trace) = timeouts [ev] + timeouts trace.
Proof. unfold timeouts. cbn. by destruct ev. Qed.

Lemma run_typed resolve c trace s init t k :
  typedNameElement c = Some t -> t < length (dom s) ->
  typed init t k s ->
  typed init t (k + timeouts trace) (fst (run resolve c trace s)).
Proof.
  intros Ht. revert s k. induction trace as [| ev rest IH]; intros s k Hlen Hs.
  - cbn. by rewrite Nat.add_0_r.
  - cbn [run]. unfold and_then. cbn [fst].
    rewrite timeouts_cons, Nat.add_assoc. apply IH.
    + pose proof (step_frame resolve c ev s) as [H%Forall2_length _]. lia.
    + by apply step_typed.
Qed.

Lemma loaded_typing_vars io y d : typing_vars (loaded io y d) = (0, [500%Z]).
Proof.
  unfold loaded, onDOMContentLoaded. cbn [fst snd].
  match goal with
  | |- context [highlightNavLink ?c ?s] =>
      rewrite (dom_only_typing_vars s _ (highlightNavLink_dom_only c s))
  end.
  done.
Qed.

(** The typing effect from page load on. *)
Lemma typewriter_progress resolve io y d trace t :
  getElementById d "typed-name" = Some t ->
  typed (text_of t d) t (timeouts trace) (after resolve io y d trace).
Proof.
  intros Ht.
  destruct (script_of_bindings io y d) as (_ & _ & _ & _ & _ & Hc & _).
  rewrite Ht in Hc.
  destruct (getElementById_Some _ _ _ Ht) as (e & He & _).
  pose proof (loaded_restyled io y d) as Hl.
  apply (run_typed resolve _ trace (loaded io y d) (text_of t d) t 0 Hc).
  - apply Forall2_length in Hl. apply lookup_lt_Some in He. lia.
  - pose proof (loaded_typing_vars io y d) as [= Hc0 Ht0].
    unfold typed. rewrite Hc0, Ht0, (same_text_text_of _ _ _ (restyled_same_text _ _ Hl)).
    cbn [Nat.min String.substring].
    repeat split.
    clear. induction (text_of t d) as [| a s IH]; [done |].
    by rewrite append_cons, <- IH.
Qed.

(** C8, as amended. Each timer event runs [typeCharacter] once; while
    characters remain it appends the next one to the typed-name element and
    sets the next timer, otherwise it does nothing.  So after [k] timer
    events, with whatever events in between, the element holds the text it
    was served with followed by the first [k] characters of the name, and
    one timer is pending, up to the string's length; the timer event after
    that leaves no timer, and the text stays the served text followed by the
    full name. *)
Theorem typewriter_terminates resolve io y d trace t :
  getElementById d "typed-name" = Some t ->
  let c := script_of io y d in
  let s := after resolve io y d trace in
  let n := String.length nameToType in
  let k := timeouts trace in
  (charIndex s = Nat.min k n /\
   text_of t (dom s) = (text_of t d ++ String.substring 0 (Nat.min k n) nameToType)%string /\
   length (timers s) = if (k <=? n)%nat then 1 else 0) /\
  (forall r,
     let o := typeCharacter c r s in
     if (charIndex s <? n)%nat
     then text_of t (dom (fst o)) = (text_of t (dom s) ++ charAt (charIndex s) nameToType)%string /\
          charIndex (fst o) = S (charIndex s) /\
          snd o = [SetTimeout (delay_of r)]
     else o = (s, [])) /\
  (n < k ->
   text_of t (dom s) = (text_of t d ++ nameToType)%string /\ timers s = []).
Proof.
  intros Ht c s n k.
  pose proof (typewriter_progress resolve io y d trace t Ht) as Hp.
  fold s k in Hp. destruct Hp as (Hi & Htext & Htimers).
  fold n in Hi, Htext, Htimers.
  split; [done |]. split.
  - intros r. cbn zeta. destruct (Nat.ltb_spec (charIndex s) n) as [Hlt | Hge].
    + assert (Hc : typedNameElement c = Some t).
      { destruct (script_of_bindings io y d) as (_ & _ & _ & _ & _ & Hc & _).
        fold c in Hc. by rewrite Hc. }
      assert (Hlen : t < length (dom s)).
      { pose proof (after_frame resolve io y d trace) as [Hl%Forall2_length _].
        fold s in Hl.
        destruct (getElementById_Some _ _ _ Ht) as (e & He%lookup_lt_Some & _). lia. }
      destruct (typeCharacter_types c r s t Hc Hlen Hlt) as (? & ? & _ & ?). done.
    + by apply typeCharacter_done.
  - intros Hk. rewrite Nat.min_r in Htext by lia.
    destruct (Nat.leb_spec k n); [lia |].
    split; [done |]. by destruct (timers s).
Qed.

Lemma typewriter_terminates_witness :
  let trace := Scroll 30 :: repeat (Timeout (Double 1 (-53))) 22 in
  getElementById portfolio "typed-name" = Some 5 /\
  text_of 5 (dom (after id_engine true 0 portfolio trace)) = "Noor Elahi Ali Shibly" /\
  timers (after id_engine true 0 portfolio trace) = [].
Proof.
  cbn zeta.
  assert (Ht : getElementById portfolio "typed-name" = Some 5) by reflexivity.
  split; [exact Ht |].
  apply (typewriter_terminates id_engine true 0 portfolio
           (Scroll 30 :: repeat (Timeout (Double 1 (-53))) 22) 5 Ht).
  vm_compute. lia.
Defined.

(** C8 as worded fails on a page whose typed-name element is served with
    text in it: the effect ends with the name typed after that text. *)
Lemma prefilled_text_stays :
  let s := after id_engine true 0 prefilled (repeat (Timeout (Double 1 (-53))) 22) in
  getElementById prefilled "typed-name" = Some 0 /\
  charIndex s = String.length nameToType /\
  timers s = [] /\
  text_of 0 (dom s) = "> Noor Elahi Ali Shibly" /\
  text_of 0 (dom s) <> nameToType.
Proof. vm_compute. repeat split. discriminate. Qed.

(** ** Highlighting the current section *)

(** The loop of lines 144-146. *)
Lemma remove_all_active links s :
  let s1 := fold_left (fun s' link =>
              with_dom (update_classes (ClassList.remove "active") link) s') links s in
  (forall n, In n links -> has_class "active" n (dom s1) = false) /\
  (forall n, has_class "active" n (dom s) = false -> has_class "active" n (dom s1) = false) /\
  restyled (dom s) (dom s1).
Proof.
  cbn zeta. revert s. induction links as [| l links IH]; intros s.
  - cbn. repeat split; [done | done | apply restyled_refl].
  - cbn [fold_left].
    destruct (IH (with_dom (update_classes (ClassList.remove "active") l) s))
      as (IHin & IHkeep & IHr).
    assert (Hstep : forall n, has_class "active" n (dom s) = false ->
              has_class "active" n
                (dom (with_dom (update_classes (ClassList.remove "active") l) s)) = false).
    { intros n Hn. cbn. destruct (decide (l = n)) as [-> | ?].
      - apply has_class_remove.
      - by rewrite has_class_update_ne. }
    split; [| split].
    + intros n [-> | Hin]; [| by apply IHin].
      apply IHkeep. cbn. apply has_class_remove.
    + intros n Hn. by apply IHkeep, Hstep.
    + eapply restyled_trans; [| exact IHr]. cbn.
      apply update_classes_restyled; auto with frames.
Qed.

Lemma nav_link_stable h : stable (ClassHrefIs "nav-link" h).
Proof. by split. Qed.

Lemma nav_links_stable : stable (ByClass "nav-link").
Proof. by split. Qed.

Lemma inside_preserved pos d d' sec :
  Forall2 preserved d d' -> inside pos d' sec = inside pos d sec.
Proof.
  intros H. unfold inside. destruct (d !! sec) as [e |] eqn:He.
  - destruct (Forall2_lookup_l _ _ _ _ _ H He) as (e' & -> & _ & _ & _ & -> & -> & _). done.
  - apply Forall2_length in H. apply lookup_ge_None in He.
    rewrite (proj2 (lookup_ge_None d' sec)); [done | lia].
Qed.

Lemma link_of_preserved d d' sec :
  Forall2 preserved d d' -> link_of d' sec = link_of d sec.
Proof.
  intros H. unfold link_of. destruct (d !! sec) as [e |] eqn:He.
  - destruct (Forall2_lookup_l _ _ _ _ _ H He) as (e' & -> & _ & -> & _).
    apply preserved_querySelector; [apply nav_link_stable | done].
  - apply Forall2_length in H. apply lookup_ge_None in He.
    rewrite (proj2 (lookup_ge_None d' sec)); [done | lia].
Qed.

Lemma highlightSection_miss c pos s sec :
  inside pos (dom s) sec = false -> highlightSection c pos s sec = s.
Proof.
  unfold inside, highlightSection. destruct (dom s !! sec); [| done]. by intros ->.
Qed.

(** A section that contains the position leaves 'active' on its link and
    on no other nav link. *)
Lemma highlightSection_hit c pos s sec link :
  inside pos (dom s) sec = true ->
  navLinksForHighlight c = querySelectorAll (dom s) (ByClass "nav-link") ->
  In link (navLinksForHighlight c) ->
  has_class "active" link (dom (highlightSection c pos s sec)) = true <->
  link_of (dom s) sec = Some link.
Proof.
  unfold inside, highlightSection, link_of.
  destruct (dom s !! sec) as [e |]; [| done]. intros -> Hlinks Hlink.
  destruct (remove_all_active (navLinksForHighlight c) s) as (Hoff & _ & Hr).
  cbn zeta in Hoff, Hr.
  set (s1 := fold_left _ (navLinksForHighlight c) s) in *.
  rewrite (preserved_querySelector (dom s) (dom s1))
    by (apply nav_link_stable || by apply restyled_preserved).
  destruct (querySelector (dom s) _) as [target |] eqn:Htarget.
  - cbn [dom with_dom]. destruct (decide (target = link)) as [-> | Hne].
    + split; [done | intros _].
      apply querySelector_Some, elem_of_querySelectorAll in Htarget as (e' & He' & _).
      apply lookup_lt_Some in He'. apply Forall2_length in Hr.
      rewrite has_class_update, decide_True by done.
      destruct (lookup_lt_is_Some_2 (dom s1) link ltac:(lia)) as [e1 ->].
      by rewrite ClassListFacts.contains_add, String.eqb_refl.
    + rewrite has_class_update_ne, (Hoff link Hlink) by done.
      split; [done | congruence].
  - rewrite (Hoff link Hlink). done.
Qed.

Lemma highlight_fold c pos d0 secs s :
  Forall2 preserved d0 (dom s) ->
  navLinksForHighlight c = querySelectorAll d0 (ByClass "nav-link") ->
  match last (List.filter (inside pos d0) secs) with
  | Some sec =>
      forall link, In link (navLinksForHighlight c) ->
        has_class "active" link (dom (fold_left (highlightSection c pos) secs s)) = true <->
        link_of d0 sec = Some link
  | None => fold_left (highlightSection c pos) secs s = s
  end.
Proof.
  intros Hp Hlinks. revert s Hp. induction secs as [| x rest IH]; intros s Hp; [done |].
  cbn [fold_left List.filter].
  assert (Hp1 : Forall2 preserved d0 (dom (highlightSection c pos s x))).
  { eapply Forall2_trans; [apply preserved_trans | exact Hp |].
    apply restyled_preserved, highlightSection_restyled. }
  specialize (IH _ Hp1).
  destruct (inside pos d0 x) eqn:Hx.
  - rewrite last_cons.
    destruct (last (List.filter (inside pos d0) rest)) as [sec |]; [done |].
    rewrite IH. intros link Hlink.
    rewrite <- (link_of_preserved d0 (dom s)) by done.
    apply highlightSection_hit; [| | done].
    + by rewrite (inside_preserved pos d0).
    + by rewrite (preserved_querySelectorAll d0 (dom s)) by (apply nav_links_stable || done).
  - rewrite highlightSection_miss in IH |- * by (by rewrite (inside_preserved pos d0)).
    done.
Qed.

Lemma filter_none {A} (f : A -> bool) (l : list A) :
  (forall x, x ∈ l -> f x = false) -> List.filter f l = [].
Proof.
  induction l as [| y l IH]; intros Hf; [done |].
  cbn. rewrite (Hf y) by left. apply IH. intros z Hz. apply Hf. by right.
Qed.

Lemma filter_one {A} (f : A -> bool) (l : list A) a :
  NoDup l -> a ∈ l -> (forall x, x ∈ l -> f x = true <-> a = x) ->
  length (List.filter f l) = 1.
Proof.
  induction 1 as [| x l Hx Hnd IH]; intros Ha Hf; [by apply elem_of_nil in Ha |].
  cbn. apply elem_of_cons in Ha as [-> | Ha].
  - rewrite (proj2 (Hf x ltac:(left)) eq_refl). cbn. f_equal.
    rewrite filter_none; [done |].
    intros y Hy. destruct (f y) eqn:Hfy; [| done].
    apply Hf in Hfy; [| by right]. by subst.
  - destruct (f x) eqn:Hfx.
    + apply Hf in Hfx; [| left]. by subst.
    + apply IH; [done |]. intros y Hy. apply Hf. by right.
Qed.


Lemma link_of_nav_link d sec link :
  link_of d sec = Some link -> link ∈ querySelectorAll d (ByClass "nav-link").
Proof.
  unfold link_of. destruct (d !! sec) as [e |]; [| done].
  intros (e' & He' & Hm)%querySelector_Some%elem_of_querySelectorAll.
  apply elem_of_querySelectorAll. exists e'. split; [done |].
  cbn in Hm |- *. by apply andb_true_iff in Hm as [? _].
Qed.




(** ** Guards *)

(** Every other lookup is guarded: with the navbar on the page no callback
    reads a property of [null], and without it only the scroll listener
    [handleNavbarScroll] does. *)
Lemma type_error_only_without_navbar resolve io y d trace ev :
  In (Uncaught TypeError)
     (snd (step resolve (script_of io y d) ev (after resolve io y d trace))) ->
  getElementById d "navbar" = None /\ exists y', ev = Scroll y'.
Proof.
  set (c := script_of io y d). set (s := after resolve io y d trace).
  destruct (script_of_bindings io y d)
    as (Hct & Hcm & _ & _ & _ & _ & _ & _ & Hnavbar & Hscroll).
  fold c in Hct, Hcm, Hnavbar, Hscroll.
  intros Hin. pose proof (step_emits resolve c ev s) as Hemits.
  rewrite Forall_forall in Hemits. apply list_elem_of_In in Hin as Hin'.
  specialize (Hemits _ Hin').
  destruct ev as [target | y' | | r | entries]; try done.
  - exfalso. cbn [step] in Hin.
    assert (Hnone : Forall (fun e => e <> Uncaught TypeError)
              (snd (sequence (map (run_click_listener resolve c target)
                                  (listeners_of c target)) s))).
    { apply sequence_effects, Forall_map, Forall_forall. intros l Hl s0.
      assert (Hguard : l = SmoothScroll \/
                (exists t m, navToggle c = Some t /\ navMenu c = Some m)).
      { unfold c in Hl. rewrite listeners_of_script in Hl.
        destruct (getElementById d "nav-toggle") as [t |],
                 (getElementById d "nav-menu") as [m |];
          try (right; by exists t, m);
          cbn [app] in Hl; case_decide; (left; by apply list_elem_of_singleton in Hl)
                                        || by apply elem_of_nil in Hl. }
      destruct Hguard as [-> | (t & m & Ht & Hm)].
      - cbn [run_click_listener]. unfold smoothScroll.
        repeat case_match; repeat constructor; done.
      - destruct l; cbn [run_click_listener].
        + unfold toggleMenu. rewrite Ht, Hm. constructor.
        + unfold closeMenu. rewrite Ht, Hm. constructor.
        + unfold smoothScroll. repeat case_match; repeat constructor; done. }
    rewrite Forall_forall in Hnone. by apply (Hnone _ Hin').
  - split; [| by exists y']. cbn [step] in Hin.
    destruct (navbar c) as [b |] eqn:Hn; [| by rewrite <- Hnavbar].
    exfalso.
    assert (Hnone : Forall (fun e => e <> Uncaught TypeError)
              (snd (sequence (map (run_scroll_listener c) (scrollListeners c))
                             (with_scrollY y' s)))).
    { apply sequence_effects, Forall_map, Forall_forall. intros l _ s0.
      destruct l; cbn [run_scroll_listener].
      - unfold throttledHighlight. repeat case_match; repeat constructor; done.
      - unfold handleNavbarScroll. rewrite Hn. repeat constructor; done. }
    rewrite Forall_forall in Hnone. by apply (Hnone _ Hin').
Qed.

(** C1. The page without a navbar element: the scroll listener
    [handleNavbarScroll] reads [navbar.style] on [null] and throws. *)
Theorem navbar_lookup_unguarded :
  navbar (script_of true 0 no_navbar) = None /\
  snd (step id_engine (script_of true 0 no_navbar) (Scroll 100) (loaded true 0 no_navbar))
  = [RequestFrame 1; Invoked NavbarBackground; Uncaught TypeError].
Proof. split; vm_compute; reflexivity. Qed.

(** * Further properties *)

(** ** Which class each event touches *)

Lemma differs_only_on_refl cl d : differs_only_on cl d d.
Proof. apply Forall_Forall2_diag, Forall_forall. done. Qed.

Lemma differs_only_on_trans cl d1 d2 d3 :
  differs_only_on cl d1 d2 -> differs_only_on cl d2 d3 -> differs_only_on cl d1 d3.
Proof.
  apply Forall2_trans. intros e1 e2 e3 H12 H23 c Hc. by rewrite H23, H12.
Qed.

Lemma same_classes_refl d : same_classes d d.
Proof. apply Forall_Forall2_diag, Forall_forall. done. Qed.

Lemma same_classes_trans d1 d2 d3 :
  same_classes d1 d2 -> same_classes d2 d3 -> same_classes d1 d3.
Proof. apply Forall2_trans. congruence. Qed.

Lemma same_classes_differs cl d d' : same_classes d d' -> differs_only_on cl d d'.
Proof. intros H. eapply Forall2_impl; [done |]. intros e e' He c _. by rewrite He. Qed.

Lemma differs_only_on_has_class cl c n d d' :
  c <> cl -> differs_only_on cl d d' -> has_class c n d' = has_class c n d.
Proof.
  intros Hc H. unfold has_class. destruct (d !! n) as [e |] eqn:He.
  - destruct (Forall2_lookup_l _ _ _ _ _ H He) as (e' & -> & Hp). by apply Hp.
  - apply Forall2_length in H. apply lookup_ge_None in He.
    rewrite (proj2 (lookup_ge_None d' n)); [done | lia].
Qed.

Lemma same_classes_has_class c n d d' :
  same_classes d d' -> has_class c n d' = has_class c n d.
Proof.
  intros H. unfold has_class. destruct (d !! n) as [e |] eqn:He.
  - by destruct (Forall2_lookup_l _ _ _ _ _ H He) as (e' & -> & ->).
  - apply Forall2_length in H. apply lookup_ge_None in He.
    rewrite (proj2 (lookup_ge_None d' n)); [done | lia].
Qed.

Lemma update_classes_differs cl f n d :
  (forall c l, c <> cl -> ClassList.contains c (f l) = ClassList.contains c l) ->
  differs_only_on cl d (update_classes f n d).
Proof.
  intros Hf. apply Forall2_alter_r; [apply differs_only_on_refl |].
  intros e e' _ _ He c Hc. fields. by rewrite Hf, He.
Qed.

Lemma toggle_differs cl n d : differs_only_on cl d (update_classes (ClassList.toggle cl) n d).
Proof.
  apply update_classes_differs. intros c l Hc.
  rewrite ClassListFacts.contains_toggle. by destruct (String.eqb_spec c cl).
Qed.

Lemma remove_differs cl n d : differs_only_on cl d (update_classes (ClassList.remove cl) n d).
Proof.
  apply update_classes_differs. intros c l Hc.
  rewrite ClassListFacts.contains_remove. by destruct (String.eqb_spec c cl).
Qed.

Lemma add_differs cl n d : differs_only_on cl d (update_classes (ClassList.add cl) n d).
Proof.
  apply update_classes_differs. intros c l Hc.
  rewrite ClassListFacts.contains_add. by destruct (String.eqb_spec c cl).
Qed.

Create HintDb classes.

#[local] Hint Resolve differs_only_on_refl toggle_differs remove_differs add_differs
  same_classes_refl : classes.

Lemma toggleMenu_differs c s : differs_only_on "active" (dom s) (dom (fst (toggleMenu c s))).
Proof.
  unfold toggleMenu. destruct (navToggle c), (navMenu c); cbn;
    eauto using differs_only_on_trans with classes.
Qed.

Lemma closeMenu_differs c s : differs_only_on "active" (dom s) (dom (fst (closeMenu c s))).
Proof.
  unfold closeMenu. destruct (navToggle c), (navMenu c); cbn;
    eauto using differs_only_on_trans with classes.
Qed.

Lemma highlightSection_differs c pos s section :
  differs_only_on "active" (dom s) (dom (highlightSection c pos s section)).
Proof.
  unfold highlightSection. destruct (dom s !! section); [| auto with classes].
  case_match; [| auto with classes].
  assert (Hloop : forall links s0,
    differs_only_on "active" (dom s0) (dom (fold_left (fun s' link =>
      with_dom (update_classes (ClassList.remove "active") link) s') links s0))).
  { induction links as [| l links IH]; intros s0; cbn; [auto with classes |].
    eapply differs_only_on_trans; [| apply IH]. cbn. auto with classes. }
  case_match; cbn; [| apply Hloop].
  eapply differs_only_on_trans; [apply Hloop | auto with classes].
Qed.

Lemma highlightNavLink_differs c s :
  differs_only_on "active" (dom s) (dom (fst (highlightNavLink c s))).
Proof.
  unfold highlightNavLink. cbn. generalize (scrollY s + 100)%Q as pos. intros pos.
  revert s. induction (sections c) as [| x l IH]; intros s; cbn; [auto with classes |].
  eapply differs_only_on_trans; [apply highlightSection_differs | apply IH].
Qed.

Lemma fadeCallback_differs entries s :
  differs_only_on "visible" (dom s) (dom (fst (fadeCallback entries s))).
Proof.
  revert s. induction entries as [| entry rest IH]; intros s; cbn; [auto with classes |].
  eapply differs_only_on_trans; [| apply IH].
  unfold revealEntry. destruct (snd entry); cbn; auto with classes.
Qed.

Lemma typeCharacter_same_classes c r s :
  same_classes (dom s) (dom (fst (typeCharacter c r s))).
Proof.
  unfold typeCharacter. repeat case_match; cbn; auto with classes.
  apply Forall2_alter_r; [apply same_classes_refl | done].
Qed.

Lemma handleNavbarScroll_same_classes c s :
  same_classes (dom s) (dom (fst (handleNavbarScroll c s))).
Proof.
  unfold handleNavbarScroll. destruct (navbar c); cbn; auto with classes.
  apply Forall2_alter_r; [apply same_classes_refl | done].
Qed.

(** An event changes no class list at all, or else the members of one
    class only: 'active' for clicks and animation frames, 'visible' for
    intersection reports. *)
Lemma step_classes resolve c ev s :
  match class_of_event ev with
  | Some cl => differs_only_on cl (dom s) (dom (fst (step resolve c ev s)))
  | None => same_classes (dom s) (dom (fst (step resolve c ev s)))
  end.
Proof.
  destruct ev as [target | y | | r | entries]; cbn [class_of_event step].
  - apply (sequence_state (fun s s' => differs_only_on "active" (dom s) (dom s')));
      [intros; apply differs_only_on_refl | intros; by eapply differs_only_on_trans |].
    apply Forall_map, Forall_forall. intros l _ s0. destruct l; cbn.
    + apply toggleMenu_differs.
    + apply closeMenu_differs.
    + rewrite smoothScroll_state. apply differs_only_on_refl.
  - change (dom s) with (dom (with_scrollY y s)).
    apply (sequence_state (fun s s' => same_classes (dom s) (dom s')));
      [intros; apply same_classes_refl | intros; by eapply same_classes_trans |].
    apply Forall_map, Forall_forall. intros l _ s0. destruct l; cbn.
    + apply same_classes_refl.
    + apply handleNavbarScroll_same_classes.
  - change (dom s) with (dom (with_raf (scrollTimeout s) (rafCounter s) [] s)).
    apply (sequence_state (fun s s' => differs_only_on "active" (dom s) (dom s')));
      [intros; apply differs_only_on_refl | intros; by eapply differs_only_on_trans |].
    apply Forall_map, Forall_forall. intros l _ s0. apply highlightNavLink_differs.
  - destruct (timers s); [apply same_classes_refl |].
    apply (typeCharacter_same_classes c r (with_timers _ s)).
  - destruct (fadeObserver c); [apply fadeCallback_differs | apply differs_only_on_refl].
Qed.

Lemma step_has_class resolve c ev s cl n :
  class_of_event ev <> Some cl ->
  has_class cl n (dom (fst (step resolve c ev s))) = has_class cl n (dom s).
Proof.
  intros Hcl. pose proof (step_classes resolve c ev s) as H.
  destruct (class_of_event ev) as [cl' |].
  - apply (differs_only_on_has_class cl'); [congruence | done].
  - by apply same_classes_has_class.
Qed.

(** X1. Whatever the bindings and the state, the members of a class change
    only in the events that touch that class: 'active' in clicks and
    animation frames, 'visible' in intersection reports, any other class in
    none.  Along a trace without such an event every element keeps its
    membership of the class. *)
Theorem events_touch_one_class resolve c trace s cl n :
  Forall (fun ev => class_of_event ev <> Some cl) trace ->
  has_class cl n (dom (fst (run resolve c trace s))) = has_class cl n (dom s).
Proof.
  intros Htrace. revert s. induction Htrace as [| ev rest Hev _ IH]; intros s; [done |].
  cbn [run]. unfold and_then. cbn [fst]. rewrite IH. by apply step_has_class.
Qed.

Lemma events_touch_one_class_witness :
  let trace := [Click 1; Scroll 700; AnimationFrame; Timeout (Double 1 (-53))] in
  Forall (fun ev => class_of_event ev <> Some "visible") trace /\
  has_class "visible" 6
    (dom (fst (run id_engine (script_of true 0 portfolio) trace (loaded true 0 portfolio))))
  = has_class "visible" 6 (dom (loaded true 0 portfolio)).
Proof.
  cbn zeta.
  assert (H : Forall (fun ev => class_of_event ev <> Some "visible")
                [Click 1; Scroll 700; AnimationFrame; Timeout (Double 1 (-53))])
    by (repeat constructor; discriminate).
  split; [exact H |].
  exact (events_touch_one_class id_engine (script_of true 0 portfolio) _
           (loaded true 0 portfolio) "visible" 6 H).
Defined.

(** ** The observer, entry by entry *)

Lemma reported_In n entries : reported n entries = true <-> In (n, true) entries.
Proof.
  unfold reported. rewrite existsb_exists. split.
  - intros ([m b] & Hin & Hmb). cbn in Hmb.
    apply andb_true_iff in Hmb as [->%Nat.eqb_eq ->]. done.
  - intros Hin. exists (n, true). split; [done |]. cbn. by rewrite Nat.eqb_refl.
Qed.

Lemma fadeCallback_visible_other es s n :
  ~ In (n, true) es ->
  has_class "visible" n (dom (fst (fadeCallback es s))) = has_class "visible" n (dom s).
Proof.
  revert s. induction es as [| [t b] rest IH]; intros s Hn; [done |].
  cbn [fadeCallback]. unfold and_then. cbn [fst].
  rewrite IH by (intros ?; apply Hn; by right).
  unfold revealEntry. cbn [fst snd]. destruct b; [| done].
  cbn [fst dom with_dom with_observed]. apply has_class_update_ne.
  intros ->. apply Hn. by left.
Qed.

Lemma run_app resolve c t1 t2 s :
  fst (run resolve c (t1 ++ t2) s) = fst (run resolve c t2 (fst (run resolve c t1 s))).
Proof.
  revert s. induction t1 as [| ev rest IH]; intros s; [done |].
  cbn [app run]. unfold and_then. cbn [fst]. apply IH.
Qed.

(** X2. What an intersection report does, in any state the page can be in:
    the nodes it reports intersecting gain 'visible' and leave observation;
    every other node keeps its 'visible' membership and its observation. *)
Theorem intersection_report resolve y d trace entries n :
  let c := script_of true y d in
  let s := after resolve true y d trace in
  let s' := fst (step resolve c (Intersection entries) s) in
  let hit := reported n (deliverable (observed s) entries) in
  has_class "visible" n (dom s') = (has_class "visible" n (dom s) || hit) /\
  (In n (observed s') <-> In n (observed s) /\ hit = false).
Proof.
  intros c s s' hit.
  assert (Hio : fadeObserver c = true) by apply script_of_bindings.
  subst s'. cbn [step]. rewrite Hio. split.
  - destruct hit eqn:Hhit.
    + rewrite orb_true_r. apply reported_In in Hhit.
      apply fadeCallback_visible; [done |].
      by apply deliverable_observed, after_observed in Hhit as [_ ?].
    + rewrite orb_false_r. apply fadeCallback_visible_other.
      rewrite <- reported_In. fold hit. by rewrite Hhit.
  - rewrite fadeCallback_observed, <- reported_In. subst hit.
    destruct (reported n _); intuition congruence.
Qed.

Lemma run_visible_unobserved resolve c trace s n :
  ~ In n (observed s) ->
  has_class "visible" n (dom (fst (run resolve c trace s))) = has_class "visible" n (dom s).
Proof.
  revert s. induction trace as [| ev rest IH]; intros s Hn; [done |].
  cbn [run]. unfold and_then. cbn [fst].
  destruct (step_reveals resolve c ev s n) as (_ & _ & Hout).
  destruct (Hout Hn) as [_ Hn']. rewrite (IH _ Hn').
  destruct ev as [target | y | | r | entries];
    try (by apply step_has_class).
  cbn [step]. destruct (fadeObserver c); [| done].
  apply fadeCallback_visible_other. intros Hin. apply Hn.
  by eapply deliverable_observed.
Qed.

Lemma show_all_other ns d n :
  n ∉ ns ->
  has_class "visible" n
    (fold_left (fun d' el => update_classes (ClassList.add "visible") el d') ns d)
  = has_class "visible" n d.
Proof.
  revert d. induction ns as [| m ns IH]; intros d Hn; [done |].
  cbn. rewrite IH by (intros ?; apply Hn; by right).
  apply has_class_update_ne. intros ->. apply Hn. left.
Qed.

(** X3. An element that is not of class 'fade-in' has, at any time, the
    'visible' membership it was served with, with or without
    [IntersectionObserver]. *)
Theorem visible_only_on_fade_elements resolve io y d trace n :
  has_class "fade-in" n d = false ->
  has_class "visible" n (dom (after resolve io y d trace)) = has_class "visible" n d.
Proof.
  intros Hfade.
  assert (Hn : n ∉ querySelectorAll d (ByClass "fade-in"))
    by (rewrite <- has_class_elem_of; congruence).
  unfold after. rewrite run_visible_unobserved.
  - unfold loaded, onDOMContentLoaded. cbn [fst snd].
    match goal with
    | |- context [highlightNavLink ?c ?s] =>
        rewrite (differs_only_on_has_class "active" "visible" n (dom s));
          [| done | apply (highlightNavLink_differs c s)]
    end.
    cbn [dom]. destruct io; [done | by apply show_all_other].
  - rewrite loaded_observed. destruct io; [| by intros []].
    by rewrite <- list_elem_of_In.
Qed.

Lemma visible_only_on_fade_elements_witness :
  has_class "fade-in" 3 portfolio = false /\
  has_class "visible" 3
    (dom (after id_engine true 0 portfolio [Intersection [(3, true); (6, true)]]))
  = has_class "visible" 3 portfolio.
Proof.
  assert (H : has_class "fade-in" 3 portfolio = false) by reflexivity.
  split; [exact H |].
  exact (visible_only_on_fade_elements id_engine true 0 portfolio
           [Intersection [(3, true); (6, true)]] 3 H).
Defined.

(** X4. With [IntersectionObserver], page load reveals nothing, and at any
    time later every 'fade-in' element is under observation or carries
    'visible': none is dropped while still hidden. *)
Theorem observed_until_visible resolve y d trace n :
  has_class "visible" n (dom (loaded true y d)) = has_class "visible" n d /\
  (has_class "fade-in" n d = true ->
   In n (observed (after resolve true y d trace)) \/
   has_class "visible" n (dom (after resolve true y d trace)) = true).
Proof.
  split.
  - unfold loaded, onDOMContentLoaded. cbn [fst snd].
    match goal with
    | |- context [highlightNavLink ?c ?s] =>
        by rewrite (differs_only_on_has_class "active" "visible" n (dom s));
          [| | apply (highlightNavLink_differs c s)]
    end.
  - intros Hfade%has_class_elem_of.
    induction trace as [| ev trace IH] using rev_ind.
    + left. unfold after. cbn [run fst]. rewrite loaded_observed.
      by apply list_elem_of_In.
    + unfold after in *. rewrite run_app. cbn [run]. unfold and_then. cbn [fst].
      set (s := fst (run resolve (script_of true y d) trace (loaded true y d))) in *.
      destruct IH as [Hobs | Hvis].
      * destruct (decide (n ∈ observed (fst (step resolve (script_of true y d) ev s))))
          as [Hin | Hout]; [left; by apply list_elem_of_In |].
        rewrite list_elem_of_In in Hout. right.
        pose proof (step_observed resolve (script_of true y d) ev s) as Hsame.
        destruct ev as [target | y' | | r | entries];
          try (by rewrite Hsame in Hout).
        assert (Hio : fadeObserver (script_of true y d) = true)
          by apply script_of_bindings.
        cbn [step] in Hout |- *. rewrite Hio in Hout |- *.
        rewrite fadeCallback_observed in Hout.
        destruct (in_entry_dec (n, true) (deliverable (observed s) entries))
          as [Hin | Hnin]; [| tauto].
        apply fadeCallback_visible; [done |].
        apply (after_observed resolve y d trace n Hobs).
      * right. eapply has_visible_preserved; [| exact Hvis]. apply step_frame.
Qed.

Lemma observed_until_visible_witness :
  has_class "fade-in" 6 portfolio = true /\
  (In 6 (observed (after id_engine true 0 portfolio [Intersection [(6, true)]; Click 1])) \/
   has_class "visible" 6
     (dom (after id_engine true 0 portfolio [Intersection [(6, true)]; Click 1])) = true).
Proof.
  assert (H : has_class "fade-in" 6 portfolio = true) by reflexivity.
  split; [exact H |].
  exact (proj2 (observed_until_visible id_engine 0 portfolio
                  [Intersection [(6, true)]; Click 1] 6) H).
Defined.

(** ** Clicks *)

Lemma sequence_smooth_only resolve c target ls s :
  Forall (fun l => l = SmoothScroll) ls ->
  fst (sequence (map (run_click_listener resolve c target) ls) s) = s.
Proof.
  induction 1 as [| l ls -> _ IH]; [done |].
  cbn [map]. rewrite sequence_cons. unfold and_then. cbn [fst run_click_listener].
  by rewrite smoothScroll_state.
Qed.

(** X5. On a page without the toggle button or without the menu, the script
    registers neither of the two menu listeners: a click on any element
    leaves the page and the script's variables as they are. *)
Theorem menu_guard resolve io y d s n :
  getElementById d "nav-toggle" = None \/ getElementById d "nav-menu" = None ->
  ~ In ToggleMenu (listeners_of (script_of io y d) n) /\
  ~ In CloseMenu (listeners_of (script_of io y d) n) /\
  fst (step resolve (script_of io y d) (Click n) s) = s.
Proof.
  intros Hmissing.
  assert (Hl : listeners_of (script_of io y d) n =
            if decide (n ∈ querySelectorAll d (AnchorHrefPrefix "#"))
            then [SmoothScroll] else []).
  { rewrite listeners_of_script.
    destruct Hmissing as [-> | ->]; [done |].
    by destruct (getElementById d "nav-toggle"). }
  cbn [step]. rewrite Hl. case_decide; cbn; rewrite ?smoothScroll_state.
  - repeat split; try done; by intros [[=] | []].
  - repeat split; try done; by intros [].
Qed.

Lemma menu_guard_witness :
  (getElementById no_menu "nav-toggle" = None \/ getElementById no_menu "nav-menu" = None) /\
  fst (step id_engine (script_of true 0 no_menu) (Click 0) (loaded true 0 no_menu))
  = loaded true 0 no_menu.
Proof.
  assert (H : getElementById no_menu "nav-toggle" = None \/
              getElementById no_menu "nav-menu" = None) by (right; reflexivity).
  split; [exact H |].
  exact (proj2 (proj2 (menu_guard id_engine true 0 no_menu (loaded true 0 no_menu) 0 H))).
Defined.



(** The state a click on the toggle leaves is the one its own listener
    leaves, when the toggle is not a nav link. *)
Lemma click_toggle_state resolve io y d s t m :
  getElementById d "nav-toggle" = Some t -> getElementById d "nav-menu" = Some m ->
  has_class "nav-link" t d = false ->
  fst (step resolve (script_of io y d) (Click t) s) = fst (toggleMenu (script_of io y d) s).
Proof.
  intros Ht Hm Hnl. cbn [step]. rewrite listeners_of_script, Ht, Hm.
  rewrite decide_True by done.
  rewrite decide_False by (rewrite <- has_class_elem_of; congruence).
  case_decide; cbn; by rewrite ?smoothScroll_state.
Qed.



(** ** Where 'active' can change *)

Lemma toggleMenu_elsewhere c s n :
  navToggle c <> Some n -> navMenu c <> Some n ->
  has_class "active" n (dom (fst (toggleMenu c s))) = has_class "active" n (dom s).
Proof.
  intros Ht Hm. unfold toggleMenu.
  destruct (navToggle c) as [t |]; [| done]. destruct (navMenu c) as [m |]; cbn.
  - rewrite !has_class_update_ne by congruence. done.
  - rewrite has_class_update_ne by congruence. done.
Qed.

Lemma closeMenu_elsewhere c s n :
  navToggle c <> Some n -> navMenu c <> Some n ->
  has_class "active" n (dom (fst (closeMenu c s))) = has_class "active" n (dom s).
Proof.
  intros Ht Hm. unfold closeMenu.
  destruct (navToggle c) as [t |]; [| done]. destruct (navMenu c) as [m |]; cbn.
  - rewrite !has_class_update_ne by congruence. done.
  - rewrite has_class_update_ne by congruence. done.
Qed.

Lemma click_active_elsewhere resolve c target s n :
  navToggle c <> Some n -> navMenu c <> Some n ->
  has_class "active" n (dom (fst (step resolve c (Click target) s)))
  = has_class "active" n (dom s).
Proof.
  intros Ht Hm. cbn [step].
  apply (sequence_state (fun s s' =>
           has_class "active" n (dom s') = has_class "active" n (dom s)));
    [done | congruence |].
  apply Forall_map, Forall_forall. intros l _ s0. destruct l; cbn.
  - by apply toggleMenu_elsewhere.
  - by apply closeMenu_elsewhere.
  - by rewrite smoothScroll_state.
Qed.

Lemma remove_all_other links s n :
  ~ In n links ->
  has_class "active" n (dom (fold_left (fun s' link =>
      with_dom (update_classes (ClassList.remove "active") link) s') links s))
  = has_class "active" n (dom s).
Proof.
  revert s. induction links as [| l links IH]; intros s Hn; [done |].
  cbn [fold_left]. rewrite IH by (intros ?; apply Hn; by right).
  cbn. apply has_class_update_ne. intros ->. apply Hn. by left.
Qed.

Lemma highlightSection_elsewhere c pos s sec n :
  ~ In n (navLinksForHighlight c) -> has_class "nav-link" n (dom s) = false ->
  has_class "active" n (dom (highlightSection c pos s sec)) = has_class "active" n (dom s).
Proof.
  intros Hn Hnl. unfold highlightSection.
  destruct (dom s !! sec) as [e |]; [| done]. case_match; [| done].
  destruct (remove_all_active (navLinksForHighlight c) s) as (_ & _ & Hr).
  cbn zeta in Hr. set (s1 := fold_left _ (navLinksForHighlight c) s) in *.
  assert (H1 : has_class "active" n (dom s1) = has_class "active" n (dom s))
    by (by apply remove_all_other).
  destruct (querySelector (dom s1) _) as [activeLink |] eqn:Hq; [| done].
  cbn [dom with_dom]. rewrite has_class_update_ne; [done |].
  intros ->.
  apply querySelector_Some, elem_of_querySelectorAll in Hq as (e' & He' & Hm).
  cbn in Hm. apply andb_true_iff in Hm as [Hm _].
  rewrite <- (has_class_preserved "nav-link" n (dom s) (dom s1)) in Hnl
    by (done || by apply restyled_preserved).
  unfold has_class in Hnl. rewrite He' in Hnl. congruence.
Qed.

Lemma highlightNavLink_elsewhere c s n :
  ~ In n (navLinksForHighlight c) -> has_class "nav-link" n (dom s) = false ->
  has_class "active" n (dom (fst (highlightNavLink c s))) = has_class "active" n (dom s).
Proof.
  intros Hn. unfold highlightNavLink. cbn [fst].
  generalize (scrollY s + 100)%Q as pos. intros pos.
  revert s. induction (sections c) as [| x l IH]; intros s Hnl; [done |].
  cbn [fold_left]. rewrite IH.
  - by apply highlightSection_elsewhere.
  - rewrite (has_class_preserved "nav-link" n (dom s)); try done.
    apply restyled_preserved, highlightSection_restyled.
Qed.

Lemma highlights_elsewhere c (hs : list nat) s n :
  ~ In n (navLinksForHighlight c) -> has_class "nav-link" n (dom s) = false ->
  has_class "active" n (dom (fst (sequence (map (fun _ => highlightNavLink c) hs) s)))
  = has_class "active" n (dom s).
Proof.
  intros Hn. revert s. induction hs as [| h hs IH]; intros s Hnl; [done |].
  cbn [map]. rewrite sequence_cons. unfold and_then. cbn [fst]. rewrite IH.
  - by apply highlightNavLink_elsewhere.
  - rewrite (has_class_preserved "nav-link" n (dom s)); try done.
    apply restyled_preserved, highlightNavLink_restyled.
Qed.

Lemma step_active_elsewhere resolve c ev s n :
  (forall target, ev = Click target -> navToggle c <> Some n /\ navMenu c <> Some n) ->
  ~ In n (navLinksForHighlight c) -> has_class "nav-link" n (dom s) = false ->
  has_class "active" n (dom (fst (step resolve c ev s))) = has_class "active" n (dom s).
Proof.
  intros Hclick Hn Hnl.
  destruct ev as [target | y | | r | entries]; try (by apply step_has_class).
  - destruct (Hclick target eq_refl). by apply click_active_elsewhere.
  - cbn [step].
    by apply (highlights_elsewhere c (rafPending s)
                (with_raf (scrollTimeout s) (rafCounter s) [] s)).
Qed.

Lemma run_active_elsewhere resolve c trace s n :
  (forall target, In (Click target) trace -> navToggle c <> Some n /\ navMenu c <> Some n) ->
  ~ In n (navLinksForHighlight c) -> has_class "nav-link" n (dom s) = false ->
  has_class "active" n (dom (fst (run resolve c trace s))) = has_class "active" n (dom s).
Proof.
  intros Hclick Hn. revert s Hclick.
  induction trace as [| ev rest IH]; intros s Hclick Hnl; [done |].
  cbn [run]. unfold and_then. cbn [fst]. rewrite IH.
  - apply step_active_elsewhere; try done.
    intros target ->. apply (Hclick target). by left.
  - intros target Hin. apply (Hclick target). by right.
  - rewrite (has_class_preserved "nav-link" n (dom s)); try done. apply step_frame.
Qed.

Lemma show_all_differs ns d :
  differs_only_on "visible" d
    (fold_left (fun d' el => update_classes (ClassList.add "visible") el d') ns d).
Proof.
  revert d. induction ns as [| n ns IH]; intros d; cbn; [apply differs_only_on_refl |].
  eapply differs_only_on_trans; [| apply IH]. apply add_differs.
Qed.

Lemma loaded_active_elsewhere io y d n :
  has_class "nav-link" n d = false ->
  has_class "active" n (dom (loaded io y d)) = has_class "active" n d.
Proof.
  intros Hnl. unfold loaded, onDOMContentLoaded. cbn [fst snd].
  set (d1 := if io then d else _).
  assert (Hd1 : differs_only_on "visible" d d1)
    by (subst d1; destruct io; [apply differs_only_on_refl | apply show_all_differs]).
  assert (Hnl1 : has_class "nav-link" n d1 = false)
    by (by rewrite (differs_only_on_has_class "visible" "nav-link" n d)).
  rewrite <- (differs_only_on_has_class "visible" "active" n d d1) by done.
  match goal with
  | |- context [highlightNavLink ?c ?s] => apply (highlightNavLink_elsewhere c s)
  end; [| done].
  cbn [navLinksForHighlight]. rewrite <- list_elem_of_In, <- has_class_elem_of. congruence.
Qed.

Lemma script_nav_links io y d n :
  has_class "nav-link" n d = false -> ~ In n (navLinksForHighlight (script_of io y d)).
Proof.
  intros Hnl. destruct (script_of_bindings io y d) as (_ & _ & _ & _ & _ & _ & _ & -> & _).
  rewrite <- list_elem_of_In, <- has_class_elem_of. congruence.
Qed.



Lemma click_keeps_sync resolve c target s t m :
  navToggle c = Some t -> navMenu c = Some m -> t <> m ->
  t < length (dom s) -> m < length (dom s) ->
  has_class "active" t (dom s) = has_class "active" m (dom s) ->
  has_class "active" t (dom (fst (step resolve c (Click target) s)))
  = has_class "active" m (dom (fst (step resolve c (Click target) s))).
Proof.
  intros Ht Hm Hne Hlt Hlm Hsync. cbn [step].
  enough (H : (t < length (dom s) /\ m < length (dom s) /\
               has_class "active" t (dom s) = has_class "active" m (dom s)) ->
              let s' := fst (sequence (map (run_click_listener resolve c target)
                                         (listeners_of c target)) s) in
              t < length (dom s') /\ m < length (dom s') /\
              has_class "active" t (dom s') = has_class "active" m (dom s'))
    by (by apply H).
  apply (sequence_state (fun s s' =>
    (t < length (dom s) /\ m < length (dom s) /\
     has_class "active" t (dom s) = has_class "active" m (dom s)) ->
    t < length (dom s') /\ m < length (dom s') /\
    has_class "active" t (dom s') = has_class "active" m (dom s'))); [done | auto |].
  apply Forall_map, Forall_forall. intros l _ s0 (H1 & H2 & H3). destruct l; cbn.
  - destruct (toggleMenu_flips c s0 t m Ht Hm Hne H1 H2) as (-> & -> & _).
    pose proof (toggleMenu_restyled c s0) as Hl%Forall2_length.
    rewrite H3. repeat split; lia || done.
  - destruct (closeMenu_clears c s0 t m Ht Hm) as (-> & -> & _).
    pose proof (closeMenu_restyled c s0) as Hl%Forall2_length.
    repeat split; lia || done.
  - by rewrite smoothScroll_state.
Qed.



(** ** The scroll throttle, event by event *)

Lemma scrolls_cons ev trace : scrolls (ev :: trace) = scrolls [ev] + scrolls trace.
Proof. unfold scrolls. cbn. by destruct ev. Qed.

Lemma scrolls_app t1 t2 : scrolls (t1 ++ t2) = scrolls t1 + scrolls t2.
Proof. unfold scrolls. by rewrite List.filter_app, length_app. Qed.

Lemma scroll_step_state resolve c y s :
  scrollListeners c = [ThrottledHighlight; HandleNavbarScroll] ->
  fst (step resolve c (Scroll y) s)
  = fst (handleNavbarScroll c (fst (throttledHighlight (with_scrollY y s)))).
Proof. intros Hl. cbn [step]. rewrite Hl. done. Qed.

Lemma throttledHighlight_raf_at k p s :
  raf_at k p s -> raf_at (S k) true (fst (throttledHighlight s)).
Proof.
  intros (Hk & Ht & Hp & Hpk). unfold throttledHighlight, raf_at.
  cbn [fst rafCounter scrollTimeout rafPending with_raf]. rewrite Hk, Ht, Hp.
  repeat split; [| lia]. destruct k as [| k]; cbn.
  - destruct p; [| done]. specialize (Hpk eq_refl). lia.
  - destruct p; cbn; [| done]. by rewrite Nat.eqb_refl.
Qed.

Lemma raf_at_vars k p s s' : raf_vars s' = raf_vars s -> raf_at k p s -> raf_at k p s'.
Proof. unfold raf_vars, raf_at. intros [= -> -> ->]. done. Qed.

Lemma step_raf_at resolve c ev s k p :
  scrollListeners c = [ThrottledHighlight; HandleNavbarScroll] ->
  raf_at k p s ->
  raf_at (k + scrolls [ev]) (awaiting p [ev]) (fst (step resolve c ev s)).
Proof.
  intros Hl Hs. pose proof (step_raf_vars resolve c ev s) as Hv.
  destruct ev as [target | y | | r | entries]; cbn [awaiting fold_left];
    unfold scrolls; cbn [List.filter length];
    rewrite ?Nat.add_0_r; try (by eapply raf_at_vars).
  - rewrite scroll_step_state by done. replace (k + 1) with (S k) by lia.
    eapply raf_at_vars; [apply dom_only_raf_vars, handleNavbarScroll_dom_only |].
    apply (throttledHighlight_raf_at k p). by eapply raf_at_vars; [| exact Hs].
  - destruct Hs as (Hk & Ht & _ & _).
    set (s' := fst (step resolve c AnimationFrame s)) in *.
    unfold raf_vars in Hv. injection Hv as Ht' Hk' Hp'.
    unfold raf_at. rewrite Ht', Hk', Hp', Hk, Ht. repeat split. done.
Qed.

Lemma awaiting_cons p ev trace : awaiting p (ev :: trace) = awaiting (awaiting p [ev]) trace.
Proof. done. Qed.

Lemma run_raf_at resolve c trace s k p :
  scrollListeners c = [ThrottledHighlight; HandleNavbarScroll] ->
  raf_at k p s ->
  raf_at (k + scrolls trace) (awaiting p trace) (fst (run resolve c trace s)).
Proof.
  intros Hl. revert s k p. induction trace as [| ev rest IH]; intros s k p Hs.
  - cbn. unfold scrolls. cbn. by rewrite Nat.add_0_r.
  - cbn [run]. unfold and_then. cbn [fst].
    rewrite scrolls_cons, awaiting_cons, Nat.add_assoc.
    apply IH. by apply step_raf_at.
Qed.

Lemma after_raf_at resolve io y d trace :
  raf_at (scrolls trace) (awaiting false trace) (after resolve io y d trace).
Proof.
  apply (run_raf_at resolve _ trace (loaded io y d) 0 false).
  - apply script_of_bindings.
  - unfold loaded, onDOMContentLoaded. cbn [fst snd].
    match goal with
    | |- context [highlightNavLink ?c ?s] =>
        apply (raf_at_vars 0 false s);
          [apply dom_only_raf_vars, highlightNavLink_dom_only |]
    end.
    by repeat split.
Qed.

(** X10. The scroll throttle at any time, after [k] scroll events:
    [scrollTimeout] is still [undefined] if [k] is 0 and holds the [k]-th
    animation-frame handle otherwise; a request is pending just when a
    scroll event came after the last animation frame, and it is then the
    only one, the one [scrollTimeout] holds. *)
Theorem throttle_state resolve io y d trace :
  let s := after resolve io y d trace in
  let k := scrolls trace in
  scrollTimeout s = match k with 0 => None | S _ => Some k end /\
  rafPending s = if awaiting false trace then [k] else [].
Proof.
  cbn zeta. destruct (after_raf_at resolve io y d trace) as (_ & ? & ? & _). done.
Qed.

(** X11. An animation frame runs [highlightNavLink] exactly once when a
    scroll event came after the previous frame, however many did, and not
    at all otherwise. *)
Theorem frame_runs_highlight resolve io y d trace :
  invocations Highlight
    (snd (step resolve (script_of io y d) AnimationFrame (after resolve io y d trace)))
  = if awaiting false trace then 1 else 0.
Proof.
  rewrite frame_invocations.
  destruct (after_raf_at resolve io y d trace) as (_ & _ & -> & _).
  by destruct (awaiting false trace).
Qed.


(** ** The navbar's background *)

Lemma same_background_refl d : same_background d d.
Proof. apply Forall_Forall2_diag, Forall_forall. done. Qed.

Lemma same_background_trans d1 d2 d3 :
  same_background d1 d2 -> same_background d2 d3 -> same_background d1 d3.
Proof. apply Forall2_trans. congruence. Qed.

Lemma restyled_same_background d d' : restyled d d' -> same_background d d'.
Proof. intros H. eapply Forall2_impl; [done |]. by intros ? ? (_ & _ & ?). Qed.

Lemma same_background_of d d' n :
  same_background d d' -> background_of n d' = background_of n d.
Proof.
  intros H. unfold background_of. destruct (d !! n) as [e |] eqn:He.
  - by destruct (Forall2_lookup_l _ _ _ _ _ H He) as (e' & -> & ->).
  - apply Forall2_length in H. apply lookup_ge_None in He.
    rewrite (proj2 (lookup_ge_None d' n)); [done | lia].
Qed.

Lemma typeCharacter_same_background c r s :
  same_background (dom s) (dom (fst (typeCharacter c r s))).
Proof.
  unfold typeCharacter. repeat case_match; cbn; try apply same_background_refl.
  apply Forall2_alter_r; [apply same_background_refl | done].
Qed.

(** Only a scroll event changes an inline background colour. *)
Lemma step_same_background resolve c ev s :
  match ev with
  | Scroll _ => True
  | _ => same_background (dom s) (dom (fst (step resolve c ev s)))
  end.
Proof.
  destruct ev as [target | y | | r | entries]; [| done | | |]; cbn [step].
  - apply restyled_same_background.
    apply (sequence_state (fun s s' => restyled (dom s) (dom s')));
      [intros; apply restyled_refl | intros; by eapply restyled_trans |].
    apply Forall_map, Forall_forall. intros l _ s0. destruct l; cbn.
    + apply toggleMenu_restyled.
    + apply closeMenu_restyled.
    + rewrite smoothScroll_state. apply restyled_refl.
  - apply restyled_same_background.
    change (dom s) with (dom (with_raf (scrollTimeout s) (rafCounter s) [] s)).
    apply (sequence_state (fun s s' => restyled (dom s) (dom s')));
      [intros; apply restyled_refl | intros; by eapply restyled_trans |].
    apply Forall_map, Forall_forall. intros l _ s0. apply highlightNavLink_restyled.
  - destruct (timers s); [apply same_background_refl |].
    apply (typeCharacter_same_background c r (with_timers _ s)).
  - destruct (fadeObserver c); [| apply same_background_refl].
    apply restyled_same_background, fadeCallback_restyled.
Qed.

Lemma scroll_sets_background resolve c y s b :
  scrollListeners c = [ThrottledHighlight; HandleNavbarScroll] ->
  navbar c = Some b -> b < length (dom s) ->
  background_of b (dom (fst (step resolve c (Scroll y) s))) = navbar_colour y.
Proof.
  intros Hl Hb Hlen. rewrite scroll_step_state by done.
  unfold handleNavbarScroll. rewrite Hb.
  cbn [fst dom with_dom throttledHighlight with_raf with_scrollY scrollY].
  unfold background_of. rewrite list_lookup_alter_eq.
  by destruct (lookup_lt_is_Some_2 _ _ Hlen) as [e ->].
Qed.

Lemma last_offset_app y t1 t2 : last_offset y (t1 ++ t2) = last_offset (last_offset y t1) t2.
Proof. unfold last_offset. apply fold_left_app. Qed.



Lemma run_same_background resolve c trace s :
  scrolls trace = 0 -> same_background (dom s) (dom (fst (run resolve c trace s))).
Proof.
  revert s. induction trace as [| ev rest IH]; intros s Hk; [apply same_background_refl |].
  rewrite scrolls_cons in Hk. cbn [run]. unfold and_then. cbn [fst].
  pose proof (step_same_background resolve c ev s) as Hsame.
  eapply same_background_trans; [| apply IH; lia].
  destruct ev; try done; unfold scrolls in Hk; cbn in Hk; lia.
Qed.

(** X14. Page load sets no background colour: until the first scroll event
    every element, the navbar too, has the inline background colour it was
    served with, even if the page loads scrolled down; and an element other
    than the navbar has it at any time. *)
Theorem background_as_served resolve io y d trace n :
  scrolls trace = 0 \/ getElementById d "navbar" <> Some n ->
  background_of n (dom (after resolve io y d trace)) = background_of n d.
Proof.
  intros [Hk | Hn].
  - apply same_background_of. eapply same_background_trans.
    + apply restyled_same_background, loaded_restyled.
    + by apply run_same_background.
  - destruct (script_of_bindings io y d) as (_ & _ & _ & _ & _ & _ & _ & _ & Hb & _).
    pose proof (after_frame resolve io y d trace) as [Hp Hf].
    unfold background_of. destruct (d !! n) as [e |] eqn:He.
    + destruct (Forall2_lookup_l _ _ _ _ _ Hp He) as (e' & He' & _).
      rewrite He'. apply (Hf n e e' He He'). by rewrite Hb.
    + apply Forall2_length in Hp. apply lookup_ge_None in He.
      rewrite (proj2 (lookup_ge_None _ n)); [done | lia].
Qed.

Lemma background_as_served_witness :
  (scrolls [Click 1; Timeout (Double 1 (-53))] = 0 \/
   getElementById portfolio "navbar" <> Some 0) /\
  background_of 0 (dom (after id_engine true 900 portfolio [Click 1; Timeout (Double 1 (-53))]))
  = background_of 0 portfolio.
Proof.
  assert (H : scrolls [Click 1; Timeout (Double 1 (-53))] = 0 \/
              getElementById portfolio "navbar" <> Some 0) by (left; reflexivity).
  split; [exact H |].
  exact (background_as_served id_engine true 900 portfolio
           [Click 1; Timeout (Double 1 (-53))] 0 H).
Defined.

(** ** Highlighting, end to end *)

Lemma dom_only_scrollY s s' : dom_only s s' -> scrollY s' = scrollY s.
Proof. intros ->. done. Qed.

Lemma fadeCallback_scrollY entries s : scrollY (fst (fadeCallback entries s)) = scrollY s.
Proof.
  revert s. induction entries as [| entry rest IH]; intros s; cbn; [done |].
  rewrite IH. unfold revealEntry. by destruct (snd entry).
Qed.

Lemma step_scrollY resolve c ev s :
  scrollY (fst (step resolve c ev s)) = match ev with Scroll y' => y' | _ => scrollY s end.
Proof.
  destruct ev as [target | y | | r | entries].
  - apply dom_only_scrollY, step_click_dom_only.
  - cbn [step]. change y with (scrollY (with_scrollY y s)) at 2.
    apply (sequence_keeps scrollY).
    apply Forall_map, Forall_forall. intros l _ s0. destruct l; cbn; [done |].
    apply dom_only_scrollY, handleNavbarScroll_dom_only.
  - apply (dom_only_scrollY _ _ (step_frame_raf resolve c s)).
  - cbn [step]. destruct (timers s); [done |].
    unfold typeCharacter. by repeat case_match.
  - cbn [step]. destruct (fadeObserver c); [apply fadeCallback_scrollY | done].
Qed.

Lemma after_scrollY resolve io y d trace :
  scrollY (after resolve io y d trace) = last_offset y trace.
Proof.
  induction trace as [| ev trace IH] using rev_ind.
  - unfold after, loaded, onDOMContentLoaded. cbn [run fst snd].
    match goal with
    | |- context [highlightNavLink ?c ?s] =>
        by rewrite (dom_only_scrollY s _ (highlightNavLink_dom_only c s))
    end.
  - unfold after in *. rewrite run_app, last_offset_app. cbn [run]. unfold and_then.
    cbn [fst]. rewrite step_scrollY, IH. by destruct ev.
Qed.





Lemma filter_nil_false {A} (f : A -> bool) (l : list A) x :
  List.filter f l = [] -> In x l -> f x = false.
Proof.
  induction l as [| a l IH]; [done |]. cbn. destruct (f a) eqn:Ha; [done |].
  intros Hnil [-> | Hin]; [done | by apply IH].
Qed.



(** ** Timers *)

Lemma timers_set_app a b : timers_set (a ++ b) = timers_set a + timers_set b.
Proof. unfold timers_set. by rewrite List.filter_app, length_app. Qed.

Lemma emits_timers_set ev effs :
  Forall (emits ev) effs ->
  match ev with
  | Timeout _ => True
  | _ => timers_set effs = 0
  end.
Proof.
  intros H. destruct ev; try done;
    (induction H as [| e effs He _ IH]; [done |]);
    destruct e as [| | | | | | [] | []]; cbn in He; try done; exact IH.
Qed.

Lemma timeouts_app t1 t2 : timeouts (t1 ++ t2) = timeouts t1 + timeouts t2.
Proof. unfold timeouts. by rewrite List.filter_app, length_app. Qed.

Lemma run_snd_cons resolve c ev rest s :
  snd (run resolve c (ev :: rest) s)
  = snd (step resolve c ev s) ++ snd (run resolve c rest (fst (step resolve c ev s))).
Proof. done. Qed.

Lemma run_fst_cons resolve c ev rest s :
  fst (run resolve c (ev :: rest) s) = fst (run resolve c rest (fst (step resolve c ev s))).
Proof. done. Qed.

(** Without a typed-name element a timer event only uses up a timer. *)
Lemma run_untyped resolve c trace s :
  typedNameElement c = None ->
  charIndex (fst (run resolve c trace s)) = charIndex s /\
  same_text (dom s) (dom (fst (run resolve c trace s))) /\
  timers (fst (run resolve c trace s)) = drop (timeouts trace) (timers s) /\
  timers_set (snd (run resolve c trace s)) = 0.
Proof.
  intros Hc. revert s. induction trace as [| ev rest IH]; intros s.
  - cbn. repeat split. apply same_text_refl.
  - rewrite run_fst_cons, run_snd_cons, timers_set_app, timeouts_cons.
    destruct (IH (fst (step resolve c ev s))) as (IHc & IHt & IHtm & IHs).
    rewrite IHc, IHtm, IHs.
    pose proof (step_typing_vars resolve c ev s) as Hv.
    pose proof (step_same_text resolve c ev s) as Ht.
    pose proof (emits_timers_set ev _ (step_emits resolve c ev s)) as He.
    assert (Hother : typing_vars (fst (step resolve c ev s)) = typing_vars s ->
                     same_text (dom s) (dom (fst (step resolve c ev s))) ->
                     timers_set (snd (step resolve c ev s)) = 0 ->
                     timeouts [ev] = 0 ->
                     charIndex (fst (step resolve c ev s)) = charIndex s /\
                     same_text (dom s) (dom (fst (run resolve c rest (fst (step resolve c ev s))))) /\
                     drop (timeouts rest) (timers (fst (step resolve c ev s)))
                     = drop (timeouts [ev] + timeouts rest) (timers s) /\
                     timers_set (snd (step resolve c ev s)) + 0 = 0).
    { intros [= Hci Htm] Hst -> ->. rewrite Hci, Htm. repeat split.
      by eapply same_text_trans. }
    destruct ev as [target | y | | r | entries]; try (by apply Hother).
    clear Hother Hv Ht He IH. cbn [step] in *.
    unfold timeouts at 1. cbn [List.filter length].
    destruct (timers s) as [| delay ts] eqn:Hts.
    + cbn [fst snd] in *. rewrite Hts. rewrite !drop_nil. repeat split. done.
    + unfold typeCharacter in *. rewrite Hc in *. cbn [fst snd timers with_timers] in *.
      repeat split. done.
Qed.

(** X18. On a page without a typed-name element the typing effect never
    starts: the timer set at page load fires, [typeCharacter] returns at
    once, no timer is ever set again, and no text and no counter changes. *)
Theorem typing_without_element resolve io y d trace n :
  getElementById d "typed-name" = None ->
  let s := after resolve io y d trace in
  charIndex s = 0 /\
  text_of n (dom s) = text_of n d /\
  timers s = match timeouts trace with 0 => [500%Z] | S _ => [] end /\
  timers_set (snd (run resolve (script_of io y d) trace (loaded io y d))) = 0.
Proof.
  intros Hnone.
  destruct (script_of_bindings io y d) as (_ & _ & _ & _ & _ & Hc & _).
  rewrite Hnone in Hc.
  destruct (run_untyped resolve _ trace (loaded io y d) Hc) as (Hi & Ht & Htm & Hs).
  pose proof (loaded_typing_vars io y d) as [= Hi0 Htm0].
  cbn zeta. unfold after. rewrite Hi, Htm, Hs, Hi0, Htm0. repeat split.
  - apply same_text_text_of. eapply same_text_trans; [| exact Ht].
    apply restyled_same_text, loaded_restyled.
  - by destruct (timeouts trace) as [| [| k]].
Qed.

Lemma typing_without_element_witness :
  let trace := [Timeout (Double 1 (-53)); Click 0; Timeout (Double 1 (-53))] in
  getElementById no_typed_name "typed-name" = None /\
  charIndex (after id_engine true 0 no_typed_name trace) = 0 /\
  timers (after id_engine true 0 no_typed_name trace) = [].
Proof.
  cbn zeta.
  assert (H : getElementById no_typed_name "typed-name" = None) by reflexivity.
  split; [exact H |].
  destruct (typing_without_element id_engine true 0 no_typed_name
              [Timeout (Double 1 (-53)); Click 0; Timeout (Double 1 (-53))] 0 H)
    as (Hi & _ & Ht & _).
  split; [exact Hi | exact Ht].
Defined.

Lemma run_timers_set resolve c trace s init t k :
  typedNameElement c = Some t -> t < length (dom s) ->
  typed init t k s ->
  timers_set (snd (run resolve c trace s))
  = Nat.min (k + timeouts trace) 21 - Nat.min k 21.
Proof.
  intros Ht. revert s k. induction trace as [| ev rest IH]; intros s k Hlen Hs.
  - cbn. unfold timeouts. cbn. rewrite Nat.add_0_r. lia.
  - rewrite run_snd_cons, timers_set_app, timeouts_cons.
    pose proof (step_typed resolve c ev s init t k Ht Hlen Hs) as Hs'.
    pose proof (step_frame resolve c ev s) as [Hl%Forall2_length _].
    rewrite (IH _ (k + timeouts [ev])) by (lia || done).
    pose proof (emits_timers_set ev _ (step_emits resolve c ev s)) as He.
    destruct Hs as (Hi & _ & Htm). change (String.length nameToType) with 21 in *.
    destruct ev as [target | y | | r | entries];
      try (rewrite He; unfold timeouts; cbn [List.filter length]; lia).
    clear He. change (timeouts [Timeout r]) with 1.
    generalize (timeouts rest) as j. intros j. cbn [step].
    destruct (Nat.leb_spec k 21) as [Hk | Hk].
    + destruct (timers s) as [| delay [| ? ?]] eqn:Hts; try done.
      destruct (decide (k = 21)) as [-> | Hne].
      * rewrite typeCharacter_done
          by (change (String.length nameToType) with 21; cbn [charIndex with_timers]; lia).
        change (timers_set (snd (with_timers [] s, []))) with 0. lia.
      * destruct (typeCharacter_types c r (with_timers [] s) t Ht Hlen)
          as (_ & _ & _ & ->);
          [change (String.length nameToType) with 21; cbn [charIndex with_timers]; lia |].
        change (timers_set [SetTimeout (delay_of r)]) with 1. lia.
    + destruct (timers s) eqn:Hts; [| done].
      change (timers_set (snd (s, []))) with 0. lia.
Qed.

(** X19. On a page with a typed-name element, the timers the callbacks set
    along any trace number the timer events so far, up to the length of the
    name: one per character typed, 21 in all and never one more. *)
Theorem typing_timers_bounded resolve io y d trace t :
  getElementById d "typed-name" = Some t ->
  timers_set (snd (run resolve (script_of io y d) trace (loaded io y d)))
  = Nat.min (timeouts trace) (String.length nameToType).
Proof.
  intros Ht.
  destruct (script_of_bindings io y d) as (_ & _ & _ & _ & _ & Hc & _).
  rewrite Ht in Hc.
  pose proof (typewriter_progress resolve io y d [] t Ht) as H0.
  unfold after in H0. cbn [run fst] in H0.
  rewrite (run_timers_set resolve _ trace (loaded io y d) (text_of t d) t 0 Hc).
  - change (String.length nameToType) with 21. cbn. lia.
  - pose proof (loaded_restyled io y d) as Hl%Forall2_length.
    destruct (getElementById_Some _ _ _ Ht) as (e & He%lookup_lt_Some & _). lia.
  - exact H0.
Qed.

Lemma typing_timers_bounded_witness :
  getElementById portfolio "typed-name" = Some 5 /\
  timers_set (snd (run id_engine (script_of true 0 portfolio)
                     (repeat (Timeout (Double 1 (-53))) 30) (loaded true 0 portfolio)))
  = 21.
Proof.
  assert (H : getElementById portfolio "typed-name" = Some 5) by reflexivity.
  split; [exact H |].
  exact (typing_timers_bounded id_engine true 0 portfolio
           (repeat (Timeout (Double 1 (-53))) 30) 5 H).
Defined.

(** ** Registration *)

(** X20. The click listeners page load leaves on an element are, in the
    order they run, a selection of: the toggle listener, on the toggle
    button alone; the closing listener, on every nav link; the smooth-scroll
    listener, on every anchor whose href begins with '#'.  The first two
    are registered only if the toggle button and the menu both exist, and no
    listener is registered twice. *)
Theorem click_listeners_registered io y d n :
  let ls := listeners_of (script_of io y d) n in
  let menu := match getElementById d "nav-toggle", getElementById d "nav-menu" with
              | Some _, Some _ => true
              | _, _ => false
              end in
  ls `sublist_of` [ToggleMenu; CloseMenu; SmoothScroll] /\
  (In ToggleMenu ls <-> menu = true /\ getElementById d "nav-toggle" = Some n) /\
  (In CloseMenu ls <-> menu = true /\ has_class "nav-link" n d = true) /\
  (In SmoothScroll ls <-> In n (querySelectorAll d (AnchorHrefPrefix "#"))).
Proof.
  cbn zeta.
  assert (Hs : In n (querySelectorAll d (AnchorHrefPrefix "#")) <->
               n ∈ querySelectorAll d (AnchorHrefPrefix "#"))
    by (symmetry; apply list_elem_of_In).
  rewrite listeners_of_script, has_class_elem_of, Hs. clear Hs.
  destruct (getElementById d "nav-toggle") as [t |],
           (getElementById d "nav-menu") as [m |];
    repeat case_decide; subst; cbn;
    (split; [repeat constructor |]);
    intuition (congruence || discriminate).
Qed.
